(** * Game session lifecycle of three-game-engine: a shallow embedding

    The development follows [Game.ts] (the session class): its constructor,
    [_init], the two registries, [loadScene], [loadAsset], [play] and
    [pause].  The collaborators the class calls into (AssetStore, Scene,
    Renderer, InputManager) are represented by a [World] of outcomes and by
    small records holding the fields the session reads and writes.

    JavaScript objects live in explicit state: the session object is a
    record, scenes are allocated in a store and referred to by address (the
    session's [scene] slot and any reference kept by the caller alias the
    same object), and every hook invocation, asset request and suspension
    of an [await] is appended to a trace.  Objects used as string-keyed
    maps keep their own properties and their prototype: a read [obj[key]]
    falls back on the members inherited from [Object.prototype], an
    assignment to [__proto__] goes through the inherited setter, and
    [for ... in] and [Object.keys] visit integer-like names first.
    Lifecycle hooks are recorded, not run; console output is left out. *)

From Stdlib Require Import ZArith Ascii String List Bool Lia.
From stdpp Require Import base option list gmap strings.

Open Scope string_scope.
Open Scope list_scope.

(** ** JavaScript values and strings *)

Record FileSystemDirectoryHandle := { handleName : string }.

(** The run-time values the session inspects with [typeof], [instanceof]
    and truthiness tests. [VObject] stands for any other object, function
    or class, identified by an address; [VBuiltin name] is what reading
    the property [name] inherited from [Object.prototype] yields (a
    built-in function, or the prototype object for [__proto__]). *)
Inductive JSValue :=
| VUndefined
| VNull
| VBoolean (b : bool)
| VNumber (n : Z)
| VString (s : string)
| VDirHandle (h : FileSystemDirectoryHandle)
| VObject (id : nat)
| VBuiltin (name : string).

(** JavaScript truthiness, as used by [||], [!] and [if]. *)
Definition truthy (v : JSValue) : bool :=
  match v with
  | VUndefined | VNull => false
  | VBoolean b => b
  | VNumber n => negb (n =? 0)%Z
  | VString s => negb (String.eqb s "")
  | VDirHandle _ | VObject _ | VBuiltin _ => true
  end.

(** [a || b] *)
Definition js_or (a b : JSValue) : JSValue := if truthy a then a else b.

(** [s.endsWith(suffix)] *)
Definition endsWith (s suffix : string) : bool :=
  (String.length suffix <=? String.length s)%nat &&
  String.eqb
    (substring (String.length s - String.length suffix) (String.length suffix) s)
    suffix.

(** [s.slice(from, to)] for [0 <= from <= to]; indices past the end clamp. *)
Definition slice (s : string) (from to : nat) : string :=
  substring from (to - from) s.

(** A string property: [undefined] when absent, and falsy when empty. *)
Definition truthy_string (o : option string) : option string :=
  match o with
  | Some s => if String.eqb s "" then None else Some s
  | None => None
  end.

(** ** Results of fallible code *)

(** The code throws plain [Error] objects told apart by their message; the
    constructors name them after the failure they report. *)
Inductive Error :=
| InvalidConstructorArgument  (* 'Game: first argument to Game constructor must be ...' *)
| AlreadyInitialized          (* 'Game already initialized' *)
| ConcurrentLoadError         (* 'loadScene(): error: game is currently working on loading a scene ...' *)
| InvalidSceneName            (* 'loadScene(): sceneName must be a string ...' *)
| UnknownScene (name : string)(* 'Game: no scene with name ... defined in game.json' *)
| NoScenesDefined             (* 'game.json has no scenes' *)
| AssetError (path : string)  (* rejected AssetStore.load *)
| SceneLoadError (path : string) (* rejected Scene.load *)
| CollaboratorError (who : string) (* Renderer or InputManager constructor threw *)
| TypeError (what : string).  (* property access on undefined or null *)

Inductive Result (A : Type) :=
| Ok (a : A)
| Throw (e : Error).
Arguments Ok {A} a.
Arguments Throw {A} e.

Definition is_ok {A} (r : Result A) : bool :=
  match r with Ok _ => true | Throw _ => false end.

(** ** Data model *)

(** [GameJSON] of types.d.ts. A JSON object is kept as the list of its own
    properties in the order in which the document declares them; property
    names are unique. *)
Record GameJSON := {
  initialScene : option string;
  scenes : option (list (string * string));
  gameObjectTypes_json : option (list (string * string))
}.

(** The own property [key] of such an object, if it has one. *)
Fixpoint prop_lookup (key : string) (obj : list (string * string)) : option string :=
  match obj with
  | [] => None
  | (k, v) :: rest => if String.eqb k key then Some v else prop_lookup key rest
  end.

(** The names every ordinary object inherits from [Object.prototype]. *)
Definition object_prototype_names : list string :=
  ["constructor"; "__proto__"; "hasOwnProperty"; "isPrototypeOf";
   "propertyIsEnumerable"; "toLocaleString"; "toString"; "valueOf";
   "__defineGetter__"; "__defineSetter__"; "__lookupGetter__";
   "__lookupSetter__"].

Definition inherited (key : string) : bool :=
  existsb (String.eqb key) object_prototype_names.

(** [obj[key]] on an object parsed from JSON: the own property, or else
    the member inherited from [Object.prototype], or else [undefined]. *)
Definition prop_get (key : string) (obj : list (string * string)) : JSValue :=
  match prop_lookup key obj with
  | Some v => VString v
  | None => if inherited key then VBuiltin key else VUndefined
  end.

(** Integer-like property names: the canonical decimal writing of an
    integer below [2^32 - 1] (an array index). *)
Definition digit_value (c : ascii) : option N :=
  let n := N_of_ascii c in
  if ((48 <=? n) && (n <=? 57))%N then Some (n - 48)%N else None.

Fixpoint digits_value (s : string) (acc : N) : option N :=
  match s with
  | EmptyString => Some acc
  | String c rest =>
      match digit_value c with
      | Some d => digits_value rest (acc * 10 + d)%N
      | None => None
      end
  end.

Definition array_index (s : string) : option N :=
  match s with
  | EmptyString => None
  | String c rest =>
      if Ascii.eqb c "0" && negb (String.eqb rest "") then None
      else match digits_value s 0%N with
           | Some n => if (n <? 4294967295)%N then Some n else None
           | None => None
           end
  end.

(** Insertion of an integer-like property at its place in ascending
    numeric order. *)
Fixpoint insert_by_index {V} (i : N) (kv : string * V)
    (sorted : list (N * (string * V))) : list (N * (string * V)) :=
  match sorted with
  | [] => [(i, kv)]
  | (j, kv') :: rest =>
      if (i <? j)%N then (i, kv) :: sorted
      else (j, kv') :: insert_by_index i kv rest
  end.

Fixpoint index_properties {V} (obj : list (string * V)) : list (N * (string * V)) :=
  match obj with
  | [] => []
  | (k, v) :: rest =>
      match array_index k with
      | Some i => insert_by_index i (k, v) (index_properties rest)
      | None => index_properties rest
      end
  end.

Fixpoint name_properties {V} (obj : list (string * V)) : list (string * V) :=
  match obj with
  | [] => []
  | (k, v) :: rest =>
      match array_index k with
      | Some _ => name_properties rest
      | None => (k, v) :: name_properties rest
      end
  end.

(** The order in which [for ... in] and [Object.keys] visit the own
    properties of an object: the integer-like names in ascending numeric
    order, then the other names in the order of their creation. *)
Definition own_property_order {V} (obj : list (string * V)) : list (string * V) :=
  map snd (index_properties obj) ++ name_properties obj.

(** [Object.keys(obj)] *)
Definition object_keys (obj : list (string * string)) : list string :=
  map fst (own_property_order obj).

(** Parsed content of a JSON asset: the manifest, or any other document
    (a game-object type descriptor), kept opaque. *)
Inductive JSONData :=
| ManifestData (m : GameJSON)
| DescriptorData (raw : string).

Record JSONAsset := { asset_path : string; data : JSONData }.

(** Reading the manifest fields off an asset's data: a document without
    them yields [undefined] for each. *)
Definition manifest_of (d : JSONData) : GameJSON :=
  match d with
  | ManifestData m => m
  | DescriptorData _ =>
      {| initialScene := None; scenes := None; gameObjectTypes_json := None |}
  end.

Record GameOptions := {
  rendererOptions : option string;
  inputOptions : option string
}.

Definition empty_options : GameOptions :=
  {| rendererOptions := None; inputOptions := None |}.

(** Modelled from the spec: the Renderer collaborator (./Renderer is not
    part of the sources) "receives getCanvas(), play(), pause()"; it is a
    record remembering its options and whether the loop runs. *)
Record Renderer := {
  renderer_options : option string;
  playing : bool
}.

(** Modelled from the spec: the InputManager collaborator is "constructed
    with a canvas handle and input configuration". *)
Record InputManager := { input_options : option string }.

(** Modelled from the spec: the AssetStore is created over the base
    location, "either a URL prefix or an opaque directory handle". *)
Record AssetStore := { store_base : JSValue }.

(** Modelled from the spec: a game object is a node of a tree, with "an
    ordered sequence of owned child GameObjects". *)
#[warnings="-register-all"]
Inductive GameObject :=
| GameObjectNode (name : string) (children : list GameObject).

(** Modelled from the spec: a Scene (./Scene is not part of the sources)
    has a "back-reference to owning GameSession (nulled on unload)", here
    [scene_game] (false is [null]), the [active] flag the session clears,
    its game-object forest, and whether its [load] has completed. The
    constructor keeps its argument, whatever [scenes[sceneName]] was. *)
Record Scene := {
  jsonAssetPath : JSValue;
  scene_game : bool;
  scene_active : bool;
  scene_loaded : bool;
  scene_objects : list GameObject
}.

(** An object created by [{}] and used as a map from strings: its own
    properties, all created by assignment, and its prototype, which is
    [Object.prototype] until an assignment to [__proto__] replaces it by
    [null] or by another object. *)
Inductive Prototype (V : Type) :=
| ObjectPrototype
| NullPrototype
| ForeignPrototype (holder : V).
Arguments ObjectPrototype {V}.
Arguments NullPrototype {V}.
Arguments ForeignPrototype {V} holder.

Record Registry (V : Type) := {
  own_properties : gmap string V;
  prototype_of : Prototype V
}.
Arguments own_properties {V} r.
Arguments prototype_of {V} r.

(** [{}] *)
Definition empty_object {V} : Registry V :=
  {| own_properties := ∅; prototype_of := ObjectPrototype |}.

(** What [obj[key]] finds: an own property, a member inherited from
    [Object.prototype], whatever the object installed as prototype holds
    under [key], or nothing ([undefined]). *)
Inductive Found (V : Type) :=
| Own (v : V)
| Builtin (member : JSValue)
| Foreign (holder : V)
| Missing.
Arguments Own {V} v.
Arguments Builtin {V} member.
Arguments Foreign {V} holder.
Arguments Missing {V}.

(** [obj[key]] *)
Definition js_get {V} (key : string) (o : Registry V) : Found V :=
  match own_properties o !! key with
  | Some v => Own v
  | None =>
      match prototype_of o with
      | ObjectPrototype => if inherited key then Builtin (VBuiltin key) else Missing
      | NullPrototype => Missing
      | ForeignPrototype holder => Foreign holder
      end
  end.

(** What the setter of [__proto__] makes of the assigned value: an object
    becomes the prototype, [null] removes it, a primitive is ignored. *)
Inductive ProtoArgument (V : Type) :=
| AsObject (v : V)
| AsNull
| AsPrimitive.
Arguments AsObject {V} v.
Arguments AsNull {V}.
Arguments AsPrimitive {V}.

Definition value_kind (v : JSValue) : ProtoArgument JSValue :=
  match v with
  | VNull => AsNull
  | VDirHandle _ | VObject _ | VBuiltin _ => AsObject v
  | VUndefined | VBoolean _ | VNumber _ | VString _ => AsPrimitive
  end.

(** Whether an assignment to [__proto__] reaches the inherited setter: not
    when the object has an own property of that name, nor when it has no
    prototype. A prototype installed by an earlier assignment is taken to
    be an ordinary object, inheriting the setter in turn. *)
Definition setter_reached {V} (o : Registry V) : bool :=
  match own_properties o !! "__proto__", prototype_of o with
  | Some _, _ => false
  | None, NullPrototype => false
  | None, _ => true
  end.

(** [obj[key] = v]. Under a prototype installed by an earlier assignment
    the names other than [__proto__] are taken not to meet an accessor or
    a read-only property there, so that the assignment creates an own
    property as it does under [Object.prototype]. *)
Definition js_set {V} (kind : V -> ProtoArgument V) (key : string) (v : V)
    (o : Registry V) : Registry V :=
  if String.eqb key "__proto__" && setter_reached o then
    match kind v with
    | AsObject holder =>
        {| own_properties := own_properties o;
           prototype_of := ForeignPrototype holder |}
    | AsNull =>
        {| own_properties := own_properties o; prototype_of := NullPrototype |}
    | AsPrimitive => o
    end
  else
    {| own_properties := <[key := v]> (own_properties o);
       prototype_of := prototype_of o |}.

(** The fields of [class Game]. [renderer], [assetStore] and
    [inputManager] are not assigned by the constructor: [None] is
    [undefined] there, and [null] for the fields typed [null | ...]. The
    [scene] slot holds the address of a scene in the store. *)
Record Game := {
  gameOptions : GameOptions;
  initialized : bool;
  baseURL : option string;
  dirHandle : option FileSystemDirectoryHandle;
  gameJSONAsset : option JSONAsset;
  renderer : option Renderer;
  scene : option nat;
  assetStore : option AssetStore;
  inputManager : option InputManager;
  gameObjectTypes : Registry JSONAsset;
  gameObjectClasses : Registry JSValue;
  loadingScene : bool
}.

(** ** The constructor *)

(** [new Game(baseURLorDirHandle, gameOptions)] *)
Definition Game_constructor (baseURLorDirHandle : JSValue)
    (options : option GameOptions) : Result Game :=
  let gameOptions := default empty_options options in
  match baseURLorDirHandle with
  | VString s =>
      let baseURL :=
        if endsWith s "/" then slice s 0 (String.length s - 1) else s in
      Ok {| gameOptions := gameOptions; initialized := false;
            baseURL := Some baseURL; dirHandle := None;
            gameJSONAsset := None; renderer := None; scene := None;
            assetStore := None; inputManager := None;
            gameObjectTypes := empty_object; gameObjectClasses := empty_object;
            loadingScene := false |}
  | VDirHandle h =>
      Ok {| gameOptions := gameOptions; initialized := false;
            baseURL := None; dirHandle := Some h;
            gameJSONAsset := None; renderer := None; scene := None;
            assetStore := None; inputManager := None;
            gameObjectTypes := empty_object; gameObjectClasses := empty_object;
            loadingScene := false |}
  | _ => Throw InvalidConstructorArgument
  end.

(** ** Machine state, trace and the monad of session code *)

(** What the session does to the outside, and the points at which an
    [await] hands control back to the event loop. [EvSuspend] carries the
    session object and the scene store as any other code sees them while
    the awaiting call is parked. Scenes are named by their address, game
    objects by scene address and name. *)
Inductive Event :=
| EvAssetLoad (path : string)
| EvRendererNew
| EvInputManagerNew
| EvRendererPlay
| EvRendererPause
| EvSceneBeforeUnloaded (r : nat)
| EvObjectBeforeUnloaded (r : nat) (name : string)
| EvSceneLoad (r : nat)
| EvSceneLoaded (r : nat)
| EvSceneAfterLoaded (r : nat)
| EvObjectAfterLoaded (r : nat) (name : string)
| EvSuspend (g : Game) (h : list Scene).

(** The trace is kept most recent event first. *)
Record State := {
  session : Game;
  scene_store : list Scene;
  trace : list Event
}.

Definition M (A : Type) : Type := State -> Result A * State.

Definition ret {A} (a : A) : M A := fun st => (Ok a, st).

Definition bind {A B} (m : M A) (k : A -> M B) : M B :=
  fun st =>
    match m st with
    | (Ok a, st') => k a st'
    | (Throw e, st') => (Throw e, st')
    end.

Definition throw {A} (e : Error) : M A := fun st => (Throw e, st).

Notation "x <~ m ;; k" := (bind m (fun x => k))
  (at level 100, m at next level, right associativity).
Notation "m ;;; k" := (bind m (fun _ => k))
  (at level 100, right associativity).

Definition get_game : M Game := fun st => (Ok (session st), st).

Definition modify_game (f : Game -> Game) : M unit :=
  fun st => (Ok tt, {| session := f (session st);
                       scene_store := scene_store st;
                       trace := trace st |}).

Definition emit (evs : list Event) : M unit :=
  fun st => (Ok tt, {| session := session st;
                       scene_store := scene_store st;
                       trace := rev evs ++ trace st |}).

Definition suspended (st : State) : State :=
  {| session := session st;
     scene_store := scene_store st;
     trace := EvSuspend (session st) (scene_store st) :: trace st |}.

(** [await p]: the awaited operation runs, the caller is parked until the
    event loop resumes it, and the operation's outcome is delivered (a
    rejection is re-thrown). *)
Definition await_ {A} (p : M A) : M A :=
  fun st => let (r, st') := p st in (r, suspended st').

(** A loop body run over a list of properties, one after the other. *)
Fixpoint for_each (props : list (string * string))
    (body : string -> string -> M unit) : M unit :=
  match props with
  | [] => ret tt
  | (k, v) :: rest => body k v ;;; for_each rest body
  end.

(** [for (const key in obj) body], the body being given the key and
    [obj[key]]: the own properties are visited in enumeration order. *)
Definition for_in (obj : list (string * string)) (body : string -> string -> M unit)
    : M unit :=
  for_each (own_property_order obj) body.

(** Field assignments on the session object. *)
Definition set_initialized (b : bool) (g : Game) : Game :=
  {| gameOptions := gameOptions g; initialized := b; baseURL := baseURL g;
     dirHandle := dirHandle g; gameJSONAsset := gameJSONAsset g;
     renderer := renderer g; scene := scene g; assetStore := assetStore g;
     inputManager := inputManager g; gameObjectTypes := gameObjectTypes g;
     gameObjectClasses := gameObjectClasses g; loadingScene := loadingScene g |}.

Definition set_gameJSONAsset (a : option JSONAsset) (g : Game) : Game :=
  {| gameOptions := gameOptions g; initialized := initialized g; baseURL := baseURL g;
     dirHandle := dirHandle g; gameJSONAsset := a;
     renderer := renderer g; scene := scene g; assetStore := assetStore g;
     inputManager := inputManager g; gameObjectTypes := gameObjectTypes g;
     gameObjectClasses := gameObjectClasses g; loadingScene := loadingScene g |}.

Definition set_renderer (r : option Renderer) (g : Game) : Game :=
  {| gameOptions := gameOptions g; initialized := initialized g; baseURL := baseURL g;
     dirHandle := dirHandle g; gameJSONAsset := gameJSONAsset g;
     renderer := r; scene := scene g; assetStore := assetStore g;
     inputManager := inputManager g; gameObjectTypes := gameObjectTypes g;
     gameObjectClasses := gameObjectClasses g; loadingScene := loadingScene g |}.

Definition set_scene (s : option nat) (g : Game) : Game :=
  {| gameOptions := gameOptions g; initialized := initialized g; baseURL := baseURL g;
     dirHandle := dirHandle g; gameJSONAsset := gameJSONAsset g;
     renderer := renderer g; scene := s; assetStore := assetStore g;
     inputManager := inputManager g; gameObjectTypes := gameObjectTypes g;
     gameObjectClasses := gameObjectClasses g; loadingScene := loadingScene g |}.

Definition set_assetStore (a : option AssetStore) (g : Game) : Game :=
  {| gameOptions := gameOptions g; initialized := initialized g; baseURL := baseURL g;
     dirHandle := dirHandle g; gameJSONAsset := gameJSONAsset g;
     renderer := renderer g; scene := scene g; assetStore := a;
     inputManager := inputManager g; gameObjectTypes := gameObjectTypes g;
     gameObjectClasses := gameObjectClasses g; loadingScene := loadingScene g |}.

Definition set_inputManager (i : option InputManager) (g : Game) : Game :=
  {| gameOptions := gameOptions g; initialized := initialized g; baseURL := baseURL g;
     dirHandle := dirHandle g; gameJSONAsset := gameJSONAsset g;
     renderer := renderer g; scene := scene g; assetStore := assetStore g;
     inputManager := i; gameObjectTypes := gameObjectTypes g;
     gameObjectClasses := gameObjectClasses g; loadingScene := loadingScene g |}.

Definition set_gameObjectTypes (m : Registry JSONAsset) (g : Game) : Game :=
  {| gameOptions := gameOptions g; initialized := initialized g; baseURL := baseURL g;
     dirHandle := dirHandle g; gameJSONAsset := gameJSONAsset g;
     renderer := renderer g; scene := scene g; assetStore := assetStore g;
     inputManager := inputManager g; gameObjectTypes := m;
     gameObjectClasses := gameObjectClasses g; loadingScene := loadingScene g |}.

Definition set_gameObjectClasses (m : Registry JSValue) (g : Game) : Game :=
  {| gameOptions := gameOptions g; initialized := initialized g; baseURL := baseURL g;
     dirHandle := dirHandle g; gameJSONAsset := gameJSONAsset g;
     renderer := renderer g; scene := scene g; assetStore := assetStore g;
     inputManager := inputManager g; gameObjectTypes := gameObjectTypes g;
     gameObjectClasses := m; loadingScene := loadingScene g |}.

Definition set_loadingScene (b : bool) (g : Game) : Game :=
  {| gameOptions := gameOptions g; initialized := initialized g; baseURL := baseURL g;
     dirHandle := dirHandle g; gameJSONAsset := gameJSONAsset g;
     renderer := renderer g; scene := scene g; assetStore := assetStore g;
     inputManager := inputManager g; gameObjectTypes := gameObjectTypes g;
     gameObjectClasses := gameObjectClasses g; loadingScene := b |}.

(** ** Collaborators *)

(** Everything outside the session that decides how a call turns out: what
    the AssetStore yields for a path, what a scene descriptor builds into,
    what the load of a scene constructed over something other than a
    string comes to, whether the Renderer and InputManager constructors
    succeed, and what an object installed as the prototype of the class
    registry holds under a name. *)
Record World := {
  asset_result : AssetStore -> string -> Result JSONAsset;
  scene_result : string -> Result (list GameObject);
  odd_scene_result : JSValue -> Result (list GameObject);
  renderer_ok : bool;
  input_ok : bool;
  foreign_member : JSValue -> string -> JSValue
}.

(** Pre-order listing of the names in a forest of game objects. *)
Fixpoint preorder_object (o : GameObject) : list string :=
  match o with
  | GameObjectNode name children =>
      name :: (fix preorder_list (l : list GameObject) : list string :=
                 match l with
                 | [] => []
                 | c :: rest => preorder_object c ++ preorder_list rest
                 end) children
  end.

Definition preorder (objs : list GameObject) : list string :=
  flat_map preorder_object objs.

Section Collaborators.
Variable w : World.

(** [assetStore.load(path)] (./assets/AssetStore is not part of the
    sources): the request is issued; the promise settles with what the
    world holds for the path. *)
Definition AssetStore_load (store : AssetStore) (path : string) : M JSONAsset :=
  emit [EvAssetLoad path] ;;;
  match asset_result w store path with
  | Ok a => ret a
  | Throw e => throw e
  end.

(** [new Renderer(game, options)] *)
Definition Renderer_new (options : option string) : M Renderer :=
  if renderer_ok w
  then emit [EvRendererNew] ;;;
       ret {| renderer_options := options; playing := false |}
  else throw (CollaboratorError "Renderer").

(** [new InputManager(canvas, options)] *)
Definition InputManager_new (options : option string) : M InputManager :=
  if input_ok w
  then emit [EvInputManagerNew] ;;; ret {| input_options := options |}
  else throw (CollaboratorError "InputManager").

(** [new Scene(jsonAssetPath)]: a fresh object at the next free address. *)
Definition Scene_new (path : JSValue) : M nat :=
  fun st =>
    (Ok (length (scene_store st)),
     {| session := session st;
        scene_store := scene_store st ++
          [{| jsonAssetPath := path; scene_game := false;
              scene_active := false; scene_loaded := false;
              scene_objects := [] |}];
        trace := trace st |}).

(** Field updates on the scene object at address [r]. *)
Definition update_scene (r : nat) (f : Scene -> Scene) : M unit :=
  fun st =>
    match scene_store st !! r with
    | Some s =>
        (Ok tt, {| session := session st;
                   scene_store := <[r := f s]> (scene_store st);
                   trace := trace st |})
    | None => (Throw (TypeError "scene"), st)
    end.

Definition get_scene (r : nat) : M Scene :=
  fun st =>
    match scene_store st !! r with
    | Some s => (Ok s, st)
    | None => (Throw (TypeError "scene"), st)
    end.

(** What building the scene constructed over [path] comes to. *)
Definition build_result (path : JSValue) : Result (list GameObject) :=
  match path with
  | VString p => scene_result w p
  | _ => odd_scene_result w path
  end.

(** Modelled from the spec: [scene.load(game)] reads the scene file and
    builds the object tree across several suspensions; only once "the
    entire tree (including physics bodies) is constructed" does the
    promise resolve, the scene then being attached to the session and
    active. A failed build rejects and leaves the scene unloaded. *)
Definition Scene_load (r : nat) : M unit :=
  s <~ get_scene r ;;
  emit [EvSceneLoad r] ;;;
  await_ (ret tt) ;;;
  match build_result (jsonAssetPath s) with
  | Ok objs =>
      update_scene r (fun s =>
        {| jsonAssetPath := jsonAssetPath s; scene_game := true;
           scene_active := true; scene_loaded := true;
           scene_objects := objs |}) ;;;
      emit [EvSceneLoaded r]
  | Throw e => throw e
  end.

(** Modelled from the spec: [scene.forEachGameObject(callback)] visits
    every contained game object in pre-order. The callbacks the session
    passes only invoke a lifecycle hook, recorded as [hook r name]. *)
Definition Scene_forEachGameObject (r : nat) (hook : nat -> string -> Event)
    : M unit :=
  s <~ get_scene r ;;
  emit (map (hook r) (preorder (scene_objects s))).

(** Modelled from the spec: [renderer.play()] and [renderer.pause()], the
    two calls the session makes on its renderer, start and stop the
    loop. *)
Definition Renderer_play (r : Renderer) : Renderer :=
  {| renderer_options := renderer_options r; playing := true |}.

Definition Renderer_pause (r : Renderer) : Renderer :=
  {| renderer_options := renderer_options r; playing := false |}.

End Collaborators.

(** ** The methods of the session *)

Definition value_of_string (o : option string) : JSValue :=
  match o with Some s => VString s | None => VNull end.

Definition value_of_handle (o : option FileSystemDirectoryHandle) : JSValue :=
  match o with Some h => VDirHandle h | None => VNull end.

Section Methods.
Variable w : World.

(** [this.assetStore.load(path)], reading the field at the time of the call *)
Definition load_via_store (path : string) : M JSONAsset :=
  g <~ get_game ;;
  match assetStore g with
  | Some store => AssetStore_load w store path
  | None => throw (TypeError "assetStore")
  end.

(** The body of the loop of [_init]:
    [this.gameObjectTypes[gameObjectType] = await this.assetStore.load(path)] *)
Definition register_type (gameObjectType path : string) : M unit :=
  d <~ await_ (load_via_store path) ;;
  modify_game (fun g =>
    set_gameObjectTypes (js_set AsObject gameObjectType d (gameObjectTypes g)) g).

(** The end of [_init]: the renderer and the input manager are created
    and [initialized] is set. *)
Definition finish_init : M unit :=
  g <~ get_game ;;
  r <~ Renderer_new w (rendererOptions (gameOptions g)) ;;
  modify_game (set_renderer (Some r)) ;;;
  i <~ InputManager_new w (inputOptions (gameOptions g)) ;;
  modify_game (set_inputManager (Some i)) ;;;
  modify_game (set_initialized true).

(** [_init] *)
Definition _init : M unit :=
  g <~ get_game ;;
  if initialized g then throw AlreadyInitialized else
  modify_game (set_assetStore
    (Some {| store_base :=
               js_or (value_of_string (baseURL g)) (value_of_handle (dirHandle g)) |})) ;;;
  a <~ await_ (load_via_store "game.json") ;;
  modify_game (set_gameJSONAsset (Some a)) ;;;
  for_in (default [] (gameObjectTypes_json (manifest_of (data a))))
    register_type ;;;
  finish_init.

(** [registerGameObjectClasses(types)]: [types] lists the own enumerable
    properties of the argument with their values, in the order of their
    creation; the loop takes them in enumeration order. *)
Definition registerGameObjectClasses (types : list (string * JSValue)) (g : Game)
    : Game :=
  fold_left (fun g kv =>
               set_gameObjectClasses
                 (js_set value_kind (fst kv) (snd kv) (gameObjectClasses g)) g)
            (own_property_order types) g.

(** [getGameObjectTypeJSON(type)]: what [this.gameObjectTypes[type]]
    finds. *)
Definition getGameObjectTypeJSON (g : Game) (type : string) : Found JSONAsset :=
  js_get type (gameObjectTypes g).

(** The value of [this.gameObjectClasses[type]] *)
Definition class_member (g : Game) (type : string) : JSValue :=
  match js_get type (gameObjectClasses g) with
  | Own v => v
  | Builtin member => member
  | Foreign holder => foreign_member w holder type
  | Missing => VUndefined
  end.

(** [getGameObjectClass(type)] *)
Definition getGameObjectClass (g : Game) (type : string) : JSValue :=
  let klass := class_member g type in
  js_or klass VNull.

(** [this.scene] where the code dereferences it *)
Definition this_scene : M nat :=
  g <~ get_game ;;
  match scene g with
  | Some r => ret r
  | None => throw (TypeError "scene")
  end.

(** The unloading block of [loadScene], run when [this.scene] is set. *)
Definition unload_current (r : nat) : M unit :=
  emit [EvSceneBeforeUnloaded r] ;;;
  Scene_forEachGameObject r EvObjectBeforeUnloaded ;;;
  update_scene r (fun s =>
    {| jsonAssetPath := jsonAssetPath s; scene_game := false;
       scene_active := scene_active s; scene_loaded := scene_loaded s;
       scene_objects := scene_objects s |}) ;;;
  update_scene r (fun s =>
    {| jsonAssetPath := jsonAssetPath s; scene_game := scene_game s;
       scene_active := false; scene_loaded := scene_loaded s;
       scene_objects := scene_objects s |}) ;;;
  modify_game (set_scene None).

(** [if (!this.initialized) { await this._init(); }] *)
Definition ensure_initialized : M unit :=
  g <~ get_game ;;
  if negb (initialized g) then await_ _init else ret tt.

(** [if (this.scene) { ... }] of [loadScene] *)
Definition unload_if_active : M unit :=
  g <~ get_game ;;
  match scene g with
  | Some r => unload_current r
  | None => ret tt
  end.

(** The rest of [loadScene]: the lookup of the scene's path in the
    manifest, and the construction, load and post-load hooks of the new
    scene. *)
Definition load_new_scene (name : string) : M unit :=
  g <~ get_game ;;
  match gameJSONAsset g with
  | None => throw (TypeError "gameJSONAsset")
  | Some a =>
      match scenes (manifest_of (data a)) with
      | None => throw (TypeError "scenes")
      | Some declared =>
          let sceneJSONassetPath := prop_get name declared in
          if negb (truthy sceneJSONassetPath) then throw (UnknownScene name) else
          scene <~ Scene_new sceneJSONassetPath ;;
          modify_game (set_scene (Some scene)) ;;;
          r <~ this_scene ;;
          await_ (Scene_load w r) ;;;
          modify_game (set_loadingScene false) ;;;
          r <~ this_scene ;;
          emit [EvSceneAfterLoaded r] ;;;
          r <~ this_scene ;;
          Scene_forEachGameObject r EvObjectAfterLoaded
      end
  end.

(** [loadScene] past the guard, the argument check and initialisation:
    the old scene goes, the new one comes. *)
Definition transition (name : string) : M unit :=
  unload_if_active ;;; load_new_scene name.

(** [loadScene(sceneName)] *)
Definition loadScene (sceneName : JSValue) : M unit :=
  g <~ get_game ;;
  if loadingScene g then throw ConcurrentLoadError else
  modify_game (set_loadingScene true) ;;;
  match sceneName with
  | VString name =>
      ensure_initialized ;;;
      transition name
  | _ => throw InvalidSceneName
  end.

(** [loadAsset(assetPath)] *)
Definition loadAsset (assetPath : string) : M JSONAsset :=
  ensure_initialized ;;;
  await_ (load_via_store assetPath).

(** The scene [play] starts with: [initialScene || sceneNames[0]], when
    there is a scene name at all. *)
Definition initial_scene_choice (m : GameJSON) : option string :=
  match object_keys (default [] (scenes m)) with
  | [] => None
  | first :: _ => Some (default first (truthy_string (initialScene m)))
  end.

(** [if (!this.scene) { ... }] of [play] *)
Definition start_initial_scene : M unit :=
  g <~ get_game ;;
  match scene g with
  | Some _ => ret tt
  | None =>
      match gameJSONAsset g with
      | None => throw (TypeError "gameJSONAsset")
      | Some a =>
          match initial_scene_choice (manifest_of (data a)) with
          | None => throw NoScenesDefined
          | Some initialScene => await_ (loadScene (VString initialScene))
          end
      end
  end.

(** [this.renderer.play()] *)
Definition start_render_loop : M unit :=
  g <~ get_game ;;
  match renderer g with
  | Some r => modify_game (set_renderer (Some (Renderer_play r))) ;;;
              emit [EvRendererPlay]
  | None => throw (TypeError "renderer")
  end.

(** [play()] *)
Definition play : M unit :=
  ensure_initialized ;;;
  start_initial_scene ;;;
  start_render_loop.

(** [pause()] *)
Definition pause : M unit :=
  g <~ get_game ;;
  match renderer g with
  | Some r => modify_game (set_renderer (Some (Renderer_pause r))) ;;;
              emit [EvRendererPause]
  | None => ret tt
  end.

End Methods.

(** ** A concrete world to run the session in *)

Module Demo.

Definition manifest : GameJSON :=
  {| initialScene := None;
     scenes := Some [("main", "main.json"); ("menu", "menu.json")];
     gameObjectTypes_json := Some [("Box", "box.json"); ("Ball", "ball.json")] |}.

Definition box_tree : list GameObject :=
  [GameObjectNode "Box" [GameObjectNode "Lid" []]; GameObjectNode "Floor" []].

Definition world : World :=
  {| asset_result := fun _ path =>
       if String.eqb path "game.json"
       then Ok {| asset_path := path; data := ManifestData manifest |}
       else if String.eqb path "box.json" || String.eqb path "ball.json"
       then Ok {| asset_path := path; data := DescriptorData path |}
       else Throw (AssetError path);
     scene_result := fun path =>
       if String.eqb path "main.json" then Ok box_tree
       else if String.eqb path "menu.json" then Ok [GameObjectNode "Title" []]
       else Throw (SceneLoadError path);
     odd_scene_result := fun _ => Throw (SceneLoadError "");
     renderer_ok := true;
     input_ok := true;
     foreign_member := fun _ _ => VUndefined |}.

(** The same world, except that building [main.json] fails. *)
Definition broken_world : World :=
  {| asset_result := asset_result world;
     scene_result := fun path =>
       if String.eqb path "menu.json" then Ok [GameObjectNode "Title" []]
       else Throw (SceneLoadError path);
     odd_scene_result := odd_scene_result world;
     renderer_ok := true;
     input_ok := true;
     foreign_member := foreign_member world |}.

(** A world whose manifest declares no scene at all. *)
Definition empty_world : World :=
  {| asset_result := fun _ path =>
       if String.eqb path "game.json"
       then Ok {| asset_path := path;
                  data := ManifestData
                    {| initialScene := None; scenes := Some [];
                       gameObjectTypes_json := Some [] |} |}
       else Throw (AssetError path);
     scene_result := fun path => Throw (SceneLoadError path);
     odd_scene_result := odd_scene_result world;
     renderer_ok := true;
     input_ok := true;
     foreign_member := foreign_member world |}.

(** A world in which no asset can be fetched. *)
Definition offline_world : World :=
  {| asset_result := fun _ path => Throw (AssetError path);
     scene_result := fun path => Throw (SceneLoadError path);
     odd_scene_result := odd_scene_result world;
     renderer_ok := true;
     input_ok := true;
     foreign_member := foreign_member world |}.

Definition fresh_game : Game :=
  match Game_constructor (VString "http://host/game/") None with
  | Ok g => g
  | Throw _ =>
      {| gameOptions := empty_options; initialized := false; baseURL := None;
         dirHandle := None; gameJSONAsset := None; renderer := None;
         scene := None; assetStore := None; inputManager := None;
         gameObjectTypes := empty_object; gameObjectClasses := empty_object;
         loadingScene := false |}
  end.

Definition fresh : State :=
  {| session := fresh_game; scene_store := []; trace := [] |}.

(** The state after [loadScene("main")] in [world]. *)
Definition with_main : State := snd (loadScene world (VString "main") fresh).

(** The state after [_init] in [world]. *)
Definition ready : State := snd (_init world fresh).




(** The state after [loadScene("menu")] replaced [main]. *)
Definition with_menu : State := snd (loadScene world (VString "menu") with_main).

(** A world whose manifest uses integer-like names: it declares the types
    [b], [2], [1] and the scenes [b], [1], in that order. *)
Definition numbered_manifest : GameJSON :=
  {| initialScene := None;
     scenes := Some [("b", "b-scene.json"); ("1", "one-scene.json")];
     gameObjectTypes_json :=
       Some [("b", "b.json"); ("2", "two.json"); ("1", "one.json")] |}.

Definition numbered_asset : JSONAsset :=
  {| asset_path := "game.json"; data := ManifestData numbered_manifest |}.

Definition numbered_types : list (string * string) :=
  default [] (gameObjectTypes_json (manifest_of (data numbered_asset))).

Definition numbered_world : World :=
  {| asset_result := fun _ path =>
       if String.eqb path "game.json"
       then Ok numbered_asset
       else Ok {| asset_path := path; data := DescriptorData path |};
     scene_result := fun path => Ok [GameObjectNode path []];
     odd_scene_result := odd_scene_result world;
     renderer_ok := true;
     input_ok := true;
     foreign_member := foreign_member world |}.

End Demo.

(** * Vocabulary of the properties *)

(** The asset requests of a trace, oldest first. *)
Definition asset_requests (tr : list Event) : list string :=
  omap (fun e => match e with EvAssetLoad p => Some p | _ => None end) (rev tr).

(** Events of initialisation, asset loading and the render loop: requests,
    collaborator construction and calls, and suspensions at which the
    scene slot, the guard flag and the scene store are those of [st]. *)
Definition quiet_event (st : State) (e : Event) : Prop :=
  match e with
  | EvSuspend g h =>
      scene g = scene (session st) /\
      loadingScene g = loadingScene (session st) /\
      h = scene_store st
  | EvAssetLoad _ | EvRendererNew | EvInputManagerNew
  | EvRendererPlay | EvRendererPause => True
  | _ => False
  end.

(** A step that touches neither scenes nor the guard nor the class
    registry nor the base location, and adds only quiet events. *)
Record quiet (st st' : State) : Prop := Quiet {
  quiet_store : scene_store st' = scene_store st;
  quiet_scene : scene (session st') = scene (session st);
  quiet_flag : loadingScene (session st') = loadingScene (session st);
  quiet_classes : gameObjectClasses (session st') = gameObjectClasses (session st);
  quiet_base : baseURL (session st') = baseURL (session st);
  quiet_handle : dirHandle (session st') = dirHandle (session st);
  quiet_options : gameOptions (session st') = gameOptions (session st);
  quiet_trace : exists new, trace st' = new ++ trace st /\ Forall (quiet_event st) new
}.

(** What the loop leaves alone, besides being quiet. *)
Definition loop_frame (st st' : State) : Prop :=
  quiet st st' /\
  initialized (session st') = initialized (session st) /\
  gameJSONAsset (session st') = gameJSONAsset (session st) /\
  renderer (session st') = renderer (session st) /\
  inputManager (session st') = inputManager (session st) /\
  assetStore (session st') = assetStore (session st).

(** The store [_init] creates: over [this.baseURL || this.dirHandle]. *)
Definition store_of (g : Game) : AssetStore :=
  {| store_base := js_or (value_of_string (baseURL g)) (value_of_handle (dirHandle g)) |}.

(** The state in which the loop of [_init] starts, the manifest [a]
    having been loaded. *)
Definition manifest_loaded (st : State) (a : JSONAsset) : State :=
  {| session := set_gameJSONAsset (Some a)
                  (set_assetStore (Some (store_of (session st))) (session st));
     scene_store := scene_store st;
     trace := EvSuspend (set_assetStore (Some (store_of (session st))) (session st))
                        (scene_store st)
                :: EvAssetLoad "game.json" :: trace st |}.

(** The paths requested when the declared types are loaded one after
    the other and the first failure stops the loop. *)
Fixpoint attempted (w : World) (store : AssetStore)
    (declared : list (string * string)) : list string :=
  match declared with
  | [] => []
  | (_, path) :: rest =>
      path :: match asset_result w store path with
              | Ok _ => attempted w store rest
              | Throw _ => []
              end
  end.

(** The specification's reading of the type loop: the descriptors are
    requested in the order in which the manifest declares the types,
    whenever each of them can be loaded. *)
Definition loads_in_declaration_order (w : World) (st : State) : Prop :=
  forall a,
    asset_result w (store_of (session st)) "game.json" = Ok a ->
    let declared := default [] (gameObjectTypes_json (manifest_of (data a))) in
    Forall (fun kv => is_ok (asset_result w (store_of (session st)) (snd kv)) = true)
           declared ->
    asset_requests (trace (snd (_init w st)))
    = asset_requests (trace st) ++ "game.json" :: map snd declared.


(** An object whose prototype is still the one [{}] gave it. *)
Definition plain {V} (o : Registry V) : Prop :=
  prototype_of o = ObjectPrototype.

(** The error of the first declared type whose load fails, if any. *)
Fixpoint first_failure (w : World) (store : AssetStore)
    (declared : list (string * string)) : option Error :=
  match declared with
  | [] => None
  | (_, path) :: rest =>
      match asset_result w store path with
      | Ok _ => first_failure w store rest
      | Throw e => Some e
      end
  end.

(** A scene object as [new Scene(path)] leaves it, as a completed [load]
    leaves it, and as the unloading block of [loadScene] leaves it. *)
Definition new_scene (path : string) : Scene :=
  {| jsonAssetPath := VString path; scene_game := false; scene_active := false;
     scene_loaded := false; scene_objects := [] |}.

Definition loaded_scene (path : string) (objs : list GameObject) : Scene :=
  {| jsonAssetPath := VString path; scene_game := true; scene_active := true;
     scene_loaded := true; scene_objects := objs |}.

(** The same for a scene constructed over any value. *)
Definition scene_over (v : JSValue) : Scene :=
  {| jsonAssetPath := v; scene_game := false; scene_active := false;
     scene_loaded := false; scene_objects := [] |}.

Definition loaded_over (v : JSValue) (objs : list GameObject) : Scene :=
  {| jsonAssetPath := v; scene_game := true; scene_active := true;
     scene_loaded := true; scene_objects := objs |}.

Definition detached (s : Scene) : Scene :=
  {| jsonAssetPath := jsonAssetPath s; scene_game := false; scene_active := false;
     scene_loaded := scene_loaded s; scene_objects := scene_objects s |}.

(** The pre-unload hooks of the scene at [r], oldest first. *)
Definition unload_hooks (r : nat) (s : Scene) : list Event :=
  EvSceneBeforeUnloaded r :: map (EvObjectBeforeUnloaded r) (preorder (scene_objects s)).

(** The post-load hooks of the scene at [r], oldest first. *)
Definition load_hooks (r : nat) (objs : list GameObject) : list Event :=
  EvSceneAfterLoaded r :: map (EvObjectAfterLoaded r) (preorder objs).

(** The state in which the new scene's [load] is under way: the scene
    sits in the slot and in the store, not yet loaded. *)
Definition loading (st : State) (path : string) : State :=
  {| session := set_scene (Some (length (scene_store st))) (session st);
     scene_store := scene_store st ++ [new_scene path];
     trace := EvSceneLoad (length (scene_store st)) :: trace st |}.

Definition loading_over (st : State) (v : JSValue) : State :=
  {| session := set_scene (Some (length (scene_store st))) (session st);
     scene_store := scene_store st ++ [scene_over v];
     trace := EvSceneLoad (length (scene_store st)) :: trace st |}.

(** The scene slot is sound when it is empty, or holds a scene whose load
    has completed, that is attached and active, and whose post-load hooks
    (its own and those of all its game objects) are in the trace. *)
Definition slot_ok (g : Game) (h : list Scene) (tr : list Event) : Prop :=
  match scene g with
  | None => True
  | Some r =>
      exists s, h !! r = Some s /\
        scene_loaded s = true /\ scene_active s = true /\ scene_game s = true /\
        Forall (fun e => e ∈ tr) (load_hooks r (scene_objects s))
  end.




(** The suspension points among [new] all have the guard flag up. *)
Definition flagged (new : list Event) : Prop :=
  Forall (fun e => match e with EvSuspend g _ => loadingScene g = true | _ => True end)
         new.

(** [g'] is [g] up to the scene slot and the guard flag. *)
Definition same_but_scene (g g' : Game) : Prop :=
  set_scene (scene g) (set_loadingScene (loadingScene g) g') = g.

(** The state right after the guard of [loadScene] is taken. *)
Definition guarded (st : State) : State :=
  {| session := set_loadingScene true (session st);
     scene_store := scene_store st;
     trace := trace st |}.

(** New suspension points of a call: those of [st'] that [st] does not
    have yet. *)
Definition parked_during (st st' : State) (g : Game) (h : list Scene) : Prop :=
  exists new, trace st' = new ++ trace st /\ EvSuspend g h ∈ new.

Definition is_unload_hook (e : Event) : bool :=
  match e with
  | EvSceneBeforeUnloaded _ | EvObjectBeforeUnloaded _ _ => true
  | _ => false
  end.

(** An unknown scene name that leaves the active scene untouched: the call
    fails with UnknownScene, the slot still holds the scene it held, the
    scene objects are as they were, and no pre-unload hook has run
    since. *)
Definition unknown_scene_leaves_untouched (w : World) (name : string) (st : State)
    : Prop :=
  let st' := snd (loadScene w (VString name) st) in
  fst (loadScene w (VString name) st) = Throw (UnknownScene name) /\
  scene (session st') = scene (session st) /\
  scene_store st' = scene_store st /\
  filter is_unload_hook (trace st') = filter is_unload_hook (trace st).

(** The calls a program can make on a session object. *)
Inductive Call :=
| CallInit
| CallRegister (types : list (string * JSValue))
| CallLoadScene (sceneName : JSValue)
| CallLoadAsset (assetPath : string)
| CallPlay
| CallPause.

(** One call, made in a world and run until it settles; whether it
    returned or threw is visible in the state only. Calls are made one
    after the other: a call made while another is parked at an [await]
    is not represented. *)
Definition run_call (wc : World * Call) (st : State) : State :=
  match wc with
  | (w, CallInit) => snd (_init w st)
  | (w, CallRegister types) =>
      {| session := registerGameObjectClasses types (session st);
         scene_store := scene_store st;
         trace := trace st |}
  | (w, CallLoadScene v) => snd (loadScene w v st)
  | (w, CallLoadAsset p) => snd (loadAsset w p st)
  | (w, CallPlay) => snd (play w st)
  | (w, CallPause) => snd (pause st)
  end.

Definition run_calls (calls : list (World * Call)) (st : State) : State :=
  fold_left (fun st wc => run_call wc st) calls st.



(** The machine right after [new Game(...)] returned [g]. *)
Definition launched (g : Game) : State :=
  {| session := g; scene_store := []; trace := [] |}.

(** [ty] is not among the game-object types declared by the manifest that
    world [w] serves to the session [g]. *)
Definition undeclared (w : World) (ty : string) (g : Game) : Prop :=
  forall a, asset_result w (store_of g) "game.json" = Ok a ->
    ty ∉ map fst (default [] (gameObjectTypes_json (manifest_of (data a)))).

(** A step that leaves the class registry and the base location alone, and
    the type registry too at a type name the manifest does not declare,
    provided the manifest declares no type named [__proto__]. *)
Definition registry_kept (w : World) (ty : string) (st st' : State) : Prop :=
  gameObjectClasses (session st') = gameObjectClasses (session st) /\
  baseURL (session st') = baseURL (session st) /\
  dirHandle (session st') = dirHandle (session st) /\
  (undeclared w ty (session st) -> undeclared w "__proto__" (session st) ->
   js_get ty (gameObjectTypes (session st')) = js_get ty (gameObjectTypes (session st))).

(** What [_init] comes to, read off the world and the base location: the
    first failure among the manifest load, the loads of the declared
    types in the order of the loop, the construction of the renderer and
    that of the input manager. *)
Definition init_verdict (w : World) (store : AssetStore) : Result unit :=
  match asset_result w store "game.json" with
  | Throw e => Throw e
  | Ok a =>
      match first_failure w store
              (own_property_order
                 (default [] (gameObjectTypes_json (manifest_of (data a))))) with
      | Some e => Throw e
      | None =>
          if renderer_ok w then
            if input_ok w then Ok tt
            else Throw (CollaboratorError "InputManager")
          else Throw (CollaboratorError "Renderer")
      end
  end.

(** What [loadScene(name)] comes to on an initialized session whose
    manifest is [m], once past the guard. *)
Definition scene_verdict (w : World) (m : GameJSON) (name : string) : Result unit :=
  match scenes m with
  | None => Throw (TypeError "scenes")
  | Some declared =>
      if truthy (prop_get name declared) then
        match build_result w (prop_get name declared) with
        | Ok _ => Ok tt
        | Throw e => Throw e
        end
      else Throw (UnknownScene name)
  end.

(** The scene slot, when set, holds an address of the scene store. *)
Definition slot_in_store (st : State) : Prop :=
  forall r, scene (session st) = Some r -> r < length (scene_store st).

(** A well-formed machine state: a raised [initialized] flag comes with a
    manifest, a renderer and an asset store, and a scene in the slot comes
    with a raised [initialized] flag and lives in the scene store. *)
Definition well_formed (st : State) : Prop :=
  (initialized (session st) = true ->
   is_Some (gameJSONAsset (session st)) /\
   is_Some (renderer (session st)) /\
   is_Some (assetStore (session st))) /\
  (forall r, scene (session st) = Some r ->
     initialized (session st) = true /\ r < length (scene_store st)).

(** The parts of an initialized session that no call is seen to write. *)
Definition same_manifest (g g' : Game) : Prop :=
  initialized g' = initialized g /\
  gameJSONAsset g' = gameJSONAsset g /\
  gameObjectTypes g' = gameObjectTypes g /\
  assetStore g' = assetStore g /\
  baseURL g' = baseURL g /\
  dirHandle g' = dirHandle g.

(** [types[key]] on the argument of [registerGameObjectClasses]: [None]
    when [key] is not among its properties. *)
Fixpoint prop_lookup_value (key : string) (obj : list (string * JSValue))
    : option JSValue :=
  match obj with
  | [] => None
  | (k, v) :: rest => if String.eqb k key then Some v else prop_lookup_value key rest
  end.

(** The property a TypeError names, when a call ends with one. *)
Definition type_error_of {A} (r : Result A) : option string :=
  match r with
  | Throw (TypeError what) => Some what
  | _ => None
  end.

(** A world whose collaborators never reject with a TypeError. *)
Definition polite (w : World) : Prop :=
  (forall store path, type_error_of (asset_result w store path) = None) /\
  (forall path, type_error_of (scene_result w path) = None) /\
  (forall v, type_error_of (odd_scene_result w v) = None).

(** * Properties *)

(** ** Strings *)

Lemma length_append (a b : string) :
  String.length (a ++ b)%string = String.length a + String.length b.
Proof. induction a as [|c a IH]; simpl; [reflexivity | now rewrite IH]. Qed.

Lemma substring_skip (a b : string) n :
  substring (String.length a) n (a ++ b)%string = substring 0 n b.
Proof. induction a as [|c a IH]; simpl; [reflexivity | exact IH]. Qed.

(** Cutting a string before its last character and gluing the two pieces
    back gives the string. *)
Lemma split_at_last (s : string) : forall n,
  String.length s = S n ->
  s = (substring 0 n s ++ substring n 1 s)%string.
Proof.
  induction s as [|c s IH]; intros n Hn; simpl in Hn; [discriminate |].
  injection Hn as Hn.
  destruct n as [|n].
  - destruct s; [reflexivity | discriminate].
  - change (String c s = String c (substring 0 n s ++ substring n 1 s)%string).
    f_equal. now apply IH.
Qed.

Lemma split_last (s : string) :
  1 <= String.length s ->
  s = (substring 0 (String.length s - 1) s
       ++ substring (String.length s - 1) 1 s)%string.
Proof. intros H. apply split_at_last. lia. Qed.

Lemma endsWith_slash_split (s : string) :
  endsWith s "/" = true ->
  s = (slice s 0 (String.length s - 1) ++ "/")%string.
Proof.
  unfold endsWith, slice. intros H.
  apply andb_prop in H as [Hlen Heq].
  apply Nat.leb_le in Hlen. apply String.eqb_eq in Heq. simpl in Hlen, Heq.
  rewrite Nat.sub_0_r.
  transitivity (substring 0 (String.length s - 1) s
                ++ substring (String.length s - 1) 1 s)%string.
  - now apply split_last.
  - now rewrite Heq.
Qed.

Lemma endsWith_slash_append (p : string) : endsWith (p ++ "/")%string "/" = true.
Proof.
  unfold endsWith. rewrite length_append. simpl String.length.
  apply andb_true_intro. split.
  - apply Nat.leb_le. lia.
  - replace (String.length p + 1 - 1) with (String.length p) by lia.
    rewrite substring_skip. reflexivity.
Qed.

(** ** The constructor (C8) *)

(** C8. The constructor throws at once unless its first argument is a
    string or a directory handle. Given a string it stores the string as
    [baseURL], without its last character when that is a slash, and leaves
    [dirHandle] null; given a directory handle it stores the handle and
    leaves [baseURL] null. Either way exactly one of the two is set. *)
Theorem Game_constructor_base_location (arg : JSValue) (options : option GameOptions) :
  match arg with
  | VString s =>
      exists g b,
        Game_constructor arg options = Ok g /\
        dirHandle g = None /\ baseURL g = Some b /\
        ((s = (b ++ "/")%string) \/ (b = s /\ forall p, s <> (p ++ "/")%string))
  | VDirHandle h =>
      exists g,
        Game_constructor arg options = Ok g /\
        baseURL g = None /\ dirHandle g = Some h
  | _ => Game_constructor arg options = Throw InvalidConstructorArgument
  end.
Proof.
  destruct arg as [| | b | n | s | h | id | member]; try reflexivity.
  - unfold Game_constructor.
    destruct (endsWith s "/") eqn:E.
    + eexists _, _. repeat split. left. now apply endsWith_slash_split.
    + eexists _, _. repeat split. right. split; [reflexivity |].
      intros p ->. rewrite endsWith_slash_append in E. discriminate.
  - eexists. repeat split.
Qed.

(** ** pause (C10) *)

(** C10. [pause()] returns normally from every state. Without a renderer
    the state is left as it was; with one, the renderer is paused, the
    pause is recorded, and every other field of the session and the scene
    store stay as they were. *)
Theorem pause_never_throws (st : State) :
  fst (pause st) = Ok tt /\
  match renderer (session st) with
  | None => snd (pause st) = st
  | Some r =>
      let g := session st in
      let g' := session (snd (pause st)) in
      renderer g' = Some (Renderer_pause r) /\
      gameOptions g' = gameOptions g /\
      initialized g' = initialized g /\
      baseURL g' = baseURL g /\
      dirHandle g' = dirHandle g /\
      gameJSONAsset g' = gameJSONAsset g /\
      scene g' = scene g /\
      assetStore g' = assetStore g /\
      inputManager g' = inputManager g /\
      gameObjectTypes g' = gameObjectTypes g /\
      gameObjectClasses g' = gameObjectClasses g /\
      loadingScene g' = loadingScene g /\
      scene_store (snd (pause st)) = scene_store st /\
      trace (snd (pause st)) = EvRendererPause :: trace st
  end.
Proof.
  unfold pause, bind, get_game.
  destruct st as [g h tr]; simpl.
  destruct (renderer g) as [r|] eqn:E; simpl.
  - repeat split; reflexivity.
  - split; reflexivity.
Qed.

(** ** Objects used as maps *)

Lemma js_set_plain {V} (kind : V -> ProtoArgument V) k v (o : Registry V) :
  k <> "__proto__" ->
  js_set kind k v o =
  {| own_properties := <[k := v]> (own_properties o);
     prototype_of := prototype_of o |}.
Proof.
  intros Hk. unfold js_set.
  destruct (String.eqb k "__proto__") eqn:E; [| reflexivity].
  apply String.eqb_eq in E. contradiction.
Qed.

Lemma js_get_set_ne {V} (kind : V -> ProtoArgument V) k v key (o : Registry V) :
  k <> "__proto__" -> k <> key ->
  js_get key (js_set kind k v o) = js_get key o.
Proof.
  intros Hk Hne. rewrite js_set_plain by assumption.
  unfold js_get. simpl. now rewrite lookup_insert_ne.
Qed.

Lemma js_get_set_eq {V} (kind : V -> ProtoArgument V) k v (o : Registry V) :
  k <> "__proto__" ->
  js_get k (js_set kind k v o) = Own v.
Proof.
  intros Hk. rewrite js_set_plain by assumption.
  unfold js_get. simpl. now rewrite lookup_insert_eq.
Qed.

(** Enumeration visits every own property once. *)
Lemma insert_by_index_perm {V} i (kv : string * V) sorted :
  insert_by_index i kv sorted ≡ₚ (i, kv) :: sorted.
Proof.
  induction sorted as [|[j kv'] sorted IH]; simpl; [reflexivity |].
  destruct (i <? j)%N; [reflexivity |].
  rewrite IH. apply Permutation_swap.
Qed.

Lemma own_property_order_perm {V} (obj : list (string * V)) :
  own_property_order obj ≡ₚ obj.
Proof.
  unfold own_property_order.
  induction obj as [|[k v] obj IH]; simpl; [reflexivity |].
  destruct (array_index k) as [i|] eqn:E.
  - rewrite insert_by_index_perm. simpl. now rewrite IH.
  - rewrite <- Permutation_middle. now rewrite IH.
Qed.

Lemma own_property_order_elem {V} (kv : string * V) obj :
  kv ∈ own_property_order obj <-> kv ∈ obj.
Proof. now rewrite own_property_order_perm. Qed.

Lemma own_property_order_keys {V} (obj : list (string * V)) :
  map fst (own_property_order obj) ≡ₚ map fst obj.
Proof. apply Permutation_map, own_property_order_perm. Qed.

Lemma own_property_order_nil {V} (obj : list (string * V)) :
  own_property_order obj = [] <-> obj = [].
Proof.
  split; [| now intros ->].
  intros H. apply Permutation_nil_r. rewrite <- H.
  symmetry. apply own_property_order_perm.
Qed.

(** An object without integer-like names is visited in the order of its
    declaration. *)
Lemma own_property_order_names {V} (obj : list (string * V)) :
  Forall (fun kv => array_index (fst kv) = None) obj ->
  own_property_order obj = obj.
Proof.
  intros H.
  assert (index_properties obj = [] /\ name_properties obj = obj) as [Hi Hn].
  { induction H as [|[k v] obj Hk _ [IH1 IH2]]; [split; reflexivity |].
    simpl in Hk |- *. rewrite Hk. split; [exact IH1 | now rewrite IH2]. }
  unfold own_property_order. now rewrite Hi, Hn.
Qed.

(** ** The class registry *)

Lemma registerGameObjectClasses_other_fields types : forall g,
  let g' := registerGameObjectClasses types g in
  initialized g' = initialized g /\ scene g' = scene g /\
  loadingScene g' = loadingScene g /\ gameObjectTypes g' = gameObjectTypes g /\
  gameJSONAsset g' = gameJSONAsset g /\ renderer g' = renderer g /\
  baseURL g' = baseURL g /\ dirHandle g' = dirHandle g /\
  assetStore g' = assetStore g.
Proof.
  unfold registerGameObjectClasses.
  induction (own_property_order types) as [|[k v] props IH]; intros g; simpl.
  - repeat split; reflexivity.
  - specialize (IH (set_gameObjectClasses
                      (js_set value_kind k v (gameObjectClasses g)) g)).
    simpl in IH. exact IH.
Qed.

(** Registration leaves alone what the registry reads under every other
    name, as long as [__proto__] is not among the names registered. *)
Lemma register_fold_get_other props type : forall g,
  type ∉ map fst props -> "__proto__" ∉ map fst props ->
  js_get type
    (gameObjectClasses
       (fold_left (fun g kv =>
                     set_gameObjectClasses
                       (js_set value_kind (fst kv) (snd kv) (gameObjectClasses g)) g)
                  props g))
  = js_get type (gameObjectClasses g).
Proof.
  induction props as [|[k v] props IH]; intros g Hnot Hproto; simpl; [reflexivity |].
  simpl in Hnot, Hproto.
  apply not_elem_of_cons in Hnot as [Hne Hrest].
  apply not_elem_of_cons in Hproto as [Hk Hproto].
  rewrite IH by assumption. simpl.
  apply js_get_set_ne; congruence.
Qed.

Lemma registerGameObjectClasses_get_other types type g :
  type ∉ map fst types -> "__proto__" ∉ map fst types ->
  js_get type (gameObjectClasses (registerGameObjectClasses types g))
  = js_get type (gameObjectClasses g).
Proof.
  intros Hnot Hproto. unfold registerGameObjectClasses.
  apply register_fold_get_other; now rewrite own_property_order_keys.
Qed.

(** ** Initialisation *)

Lemma quiet_refl st : quiet st st.
Proof. constructor; try reflexivity. exists []. split; [reflexivity | constructor]. Qed.

Lemma quiet_event_transport st st' e :
  scene_store st' = scene_store st ->
  scene (session st') = scene (session st) ->
  loadingScene (session st') = loadingScene (session st) ->
  quiet_event st' e -> quiet_event st e.
Proof.
  intros Hs Hc Hf. destruct e; simpl; try tauto.
  rewrite Hs, Hc, Hf. tauto.
Qed.

Lemma quiet_trans a b c : quiet a b -> quiet b c -> quiet a c.
Proof.
  intros [s1 c1 f1 k1 b1 h1 o1 (n1 & t1 & F1)] [s2 c2 f2 k2 b2 h2 o2 (n2 & t2 & F2)].
  constructor; try congruence.
  exists (n2 ++ n1). split.
  - rewrite t2, t1. now rewrite app_assoc.
  - apply Forall_app. split; [| assumption].
    eapply Forall_impl; [exact F2 |].
    intros e. now apply quiet_event_transport.
Qed.

Section InitFacts.
Variable w : World.

Lemma load_via_store_run st path store :
  assetStore (session st) = Some store ->
  await_ (load_via_store w path) st =
  (asset_result w store path,
   {| session := session st; scene_store := scene_store st;
      trace := EvSuspend (session st) (scene_store st)
                 :: EvAssetLoad path :: trace st |}).
Proof.
  intros H. unfold await_, load_via_store, bind, get_game, AssetStore_load, emit.
  rewrite H. simpl.
  destruct (asset_result w store path); reflexivity.
Qed.

Lemma register_type_run st ty path store :
  assetStore (session st) = Some store ->
  register_type w ty path st =
  match asset_result w store path with
  | Ok d =>
      (Ok tt,
       {| session := set_gameObjectTypes
                       (js_set AsObject ty d (gameObjectTypes (session st)))
                       (session st);
          scene_store := scene_store st;
          trace := EvSuspend (session st) (scene_store st)
                     :: EvAssetLoad path :: trace st |})
  | Throw e =>
      (Throw e,
       {| session := session st; scene_store := scene_store st;
          trace := EvSuspend (session st) (scene_store st)
                     :: EvAssetLoad path :: trace st |})
  end.
Proof.
  intros H. unfold register_type, bind.
  rewrite (load_via_store_run st path store H).
  destruct (asset_result w store path); reflexivity.
Qed.

(** The loop over the declared types, one property at a time. *)
Lemma for_each_cons k v rest st :
  for_each ((k, v) :: rest) (register_type w) st =
  match register_type w k v st with
  | (Ok _, st') => for_each rest (register_type w) st'
  | (Throw e, st') => (Throw e, st')
  end.
Proof. reflexivity. Qed.

Lemma register_type_frame st ty path store :
  assetStore (session st) = Some store ->
  loop_frame st (snd (register_type w ty path st)).
Proof.
  intros H. rewrite (register_type_run st ty path store H).
  destruct (asset_result w store path); simpl;
    (split; [constructor; try reflexivity | repeat split]);
    (eexists [_; _]; split; [reflexivity |]);
    repeat constructor.
Qed.

Lemma loop_frame_trans a b c : loop_frame a b -> loop_frame b c -> loop_frame a c.
Proof.
  intros (q1 & i1 & j1 & r1 & m1 & s1) (q2 & i2 & j2 & r2 & m2 & s2).
  split; [eapply quiet_trans; eassumption |].
  repeat split; congruence.
Qed.

Lemma for_each_frame l : forall st store,
  assetStore (session st) = Some store ->
  loop_frame st (snd (for_each l (register_type w) st)).
Proof.
  induction l as [|[k v] l IH]; intros st store H.
  - simpl. split; [apply quiet_refl | repeat split].
  - rewrite for_each_cons.
    pose proof (register_type_frame st k v store H) as F.
    destruct (register_type w k v st) as [[[]|e] st1] eqn:E; simpl in F.
    + eapply loop_frame_trans; [exact F |].
      apply (IH st1 store).
      destruct F as (_ & _ & _ & _ & _ & ->). exact H.
    + exact F.
Qed.

Lemma for_in_frame l st store :
  assetStore (session st) = Some store ->
  loop_frame st (snd (for_in l (register_type w) st)).
Proof. apply for_each_frame. Qed.

End InitFacts.

Section InitOutcome.
Variable w : World.

(** [_init], unfolded along the outcome of the manifest load. *)
Lemma init_run st :
  initialized (session st) = false ->
  _init w st =
  match asset_result w (store_of (session st)) "game.json" with
  | Throw e =>
      (Throw e,
       {| session := set_assetStore (Some (store_of (session st))) (session st);
          scene_store := scene_store st;
          trace := EvSuspend (set_assetStore (Some (store_of (session st))) (session st))
                             (scene_store st)
                     :: EvAssetLoad "game.json" :: trace st |})
  | Ok a =>
      match for_in (default [] (gameObjectTypes_json (manifest_of (data a))))
              (register_type w) (manifest_loaded st a) with
      | (Ok _, st') => finish_init w st'
      | (Throw e, st') => (Throw e, st')
      end
  end.
Proof.
  intros Hi. unfold _init, bind at 1, get_game. rewrite Hi.
  unfold bind at 1. unfold modify_game at 1.
  unfold bind at 1.
  rewrite (load_via_store_run w _ "game.json" (store_of (session st))) by reflexivity.
  simpl session; simpl scene_store; simpl trace.
  fold (store_of (session st)).
  destruct (asset_result w (store_of (session st)) "game.json") as [a|e];
    [| reflexivity].
  unfold bind at 1. unfold modify_game at 1.
  simpl session; simpl scene_store; simpl trace.
  fold (manifest_loaded st a).
  unfold bind at 1.
  destruct (for_in _ (register_type w) (manifest_loaded st a)) as [[[]|e] st'];
    reflexivity.
Qed.

Lemma finish_init_run st :
  finish_init w st =
  if renderer_ok w then
    if input_ok w then
      (Ok tt,
       {| session :=
            set_initialized true
              (set_inputManager
                 (Some {| input_options := inputOptions (gameOptions (session st)) |})
                 (set_renderer
                    (Some {| renderer_options :=
                               rendererOptions (gameOptions (session st));
                             playing := false |})
                    (session st)));
          scene_store := scene_store st;
          trace := EvInputManagerNew :: EvRendererNew :: trace st |})
    else
      (Throw (CollaboratorError "InputManager"),
       {| session :=
            set_renderer
              (Some {| renderer_options :=
                         rendererOptions (gameOptions (session st));
                       playing := false |})
              (session st);
          scene_store := scene_store st;
          trace := EvRendererNew :: trace st |})
  else (Throw (CollaboratorError "Renderer"), st).
Proof.
  unfold finish_init, bind, get_game, Renderer_new, InputManager_new.
  destruct (renderer_ok w); [| reflexivity].
  destruct (input_ok w); reflexivity.
Qed.

Lemma finish_init_quiet st : quiet st (snd (finish_init w st)).
Proof.
  rewrite finish_init_run.
  destruct (renderer_ok w); [destruct (input_ok w) |]; simpl.
  - constructor; try reflexivity.
    exists [EvInputManagerNew; EvRendererNew]. split; [reflexivity |].
    repeat constructor.
  - constructor; try reflexivity.
    exists [EvRendererNew]. split; [reflexivity |]. repeat constructor.
  - apply quiet_refl.
Qed.

Lemma manifest_loaded_quiet st a : quiet st (manifest_loaded st a).
Proof.
  constructor; try reflexivity.
  eexists [_; _]. split; [reflexivity |]. repeat constructor.
Qed.

(** Initialisation never touches the scene slot, the guard flag, the
    scene store or the class registry, and is only ever parked in states
    that agree with the starting one on them. *)
Lemma init_quiet st : quiet st (snd (_init w st)).
Proof.
  destruct (initialized (session st)) eqn:Hi.
  - unfold _init, bind, get_game. rewrite Hi. apply quiet_refl.
  - rewrite init_run by assumption.
    destruct (asset_result w (store_of (session st)) "game.json") as [a|e]; simpl.
    + pose proof (for_in_frame w
        (default [] (gameObjectTypes_json (manifest_of (data a))))
        (manifest_loaded st a) (store_of (session st)) eq_refl) as [F _].
      destruct (for_in _ (register_type w) (manifest_loaded st a))
        as [[[]|e] st'] eqn:E; simpl in F |- *.
      * eapply quiet_trans; [apply manifest_loaded_quiet |].
        eapply quiet_trans; [exact F | apply finish_init_quiet].
      * eapply quiet_trans; [apply manifest_loaded_quiet | exact F].
    + constructor; try reflexivity.
      eexists [_; _]. split; [reflexivity |]. repeat constructor.
Qed.

(** How [_init] ends: raised flag, manifest and renderer in place on
    success; the flag still down on failure. *)
Lemma init_outcome st :
  initialized (session st) = false ->
  match fst (_init w st) with
  | Ok _ =>
      initialized (session (snd (_init w st))) = true /\
      (exists a, asset_result w (store_of (session st)) "game.json" = Ok a /\
                 gameJSONAsset (session (snd (_init w st))) = Some a) /\
      is_Some (renderer (session (snd (_init w st)))) /\
      assetStore (session (snd (_init w st))) = Some (store_of (session st))
  | Throw _ => initialized (session (snd (_init w st))) = false
  end.
Proof.
  intros Hi. rewrite init_run by assumption.
  destruct (asset_result w (store_of (session st)) "game.json") as [a|e]; simpl;
    [| exact Hi].
  pose proof (for_in_frame w
    (default [] (gameObjectTypes_json (manifest_of (data a))))
    (manifest_loaded st a) (store_of (session st)) eq_refl)
    as (_ & Fi & Fj & _ & _ & Fs).
  destruct (for_in _ (register_type w) (manifest_loaded st a))
    as [[[]|e] st'] eqn:E; simpl in Fi, Fj, Fs |- *.
  - rewrite finish_init_run.
    destruct (renderer_ok w); [destruct (input_ok w) |]; simpl.
    + split; [reflexivity |]. split; [exists a; split; [reflexivity | exact Fj] |].
      split; [eexists; reflexivity | exact Fs].
    + now rewrite Fi.
    + now rewrite Fi.
  - now rewrite Fi.
Qed.

End InitOutcome.

Section TypeLoop.
Variable w : World.
Variable store : AssetStore.

Lemma asset_requests_cons e tr :
  asset_requests (e :: tr) =
  asset_requests tr ++ match e with EvAssetLoad p => [p] | _ => [] end.
Proof.
  unfold asset_requests. simpl rev. rewrite omap_app. f_equal.
  destruct e; reflexivity.
Qed.

Lemma loop_requests l : forall st,
  assetStore (session st) = Some store ->
  asset_requests (trace (snd (for_each l (register_type w) st)))
  = asset_requests (trace st) ++ attempted w store l.
Proof.
  induction l as [|[k v] l IH]; intros st H.
  - simpl. now rewrite app_nil_r.
  - rewrite for_each_cons, (register_type_run w st k v store H). simpl attempted.
    destruct (asset_result w store v) as [d|e].
    + rewrite IH by exact H. simpl trace.
      rewrite !asset_requests_cons. simpl. now rewrite app_nil_r, <- app_assoc.
    + simpl. rewrite !asset_requests_cons. simpl. now rewrite app_nil_r.
Qed.

Lemma loop_result l : forall st,
  assetStore (session st) = Some store ->
  fst (for_each l (register_type w) st)
  = match first_failure w store l with Some e => Throw e | None => Ok tt end.
Proof.
  induction l as [|[k v] l IH]; intros st H.
  - reflexivity.
  - rewrite for_each_cons, (register_type_run w st k v store H). simpl first_failure.
    destruct (asset_result w store v) as [d|e]; [| reflexivity].
    now apply IH.
Qed.

(** Only declared type names are written to the registry. *)
Lemma loop_registry_other l ty : forall st,
  assetStore (session st) = Some store ->
  ty ∉ map fst l ->
  "__proto__" ∉ map fst l ->
  js_get ty (gameObjectTypes (session (snd (for_each l (register_type w) st))))
  = js_get ty (gameObjectTypes (session st)).
Proof.
  induction l as [|[k v] l IH]; intros st H Hnot Hproto.
  - reflexivity.
  - simpl in Hnot, Hproto.
    apply not_elem_of_cons in Hnot as [Hne Hrest].
    apply not_elem_of_cons in Hproto as [Hk Hproto].
    rewrite for_each_cons, (register_type_run w st k v store H).
    destruct (asset_result w store v) as [d|e]; [| reflexivity].
    rewrite IH by assumption. simpl.
    apply js_get_set_ne; congruence.
Qed.

(** When every load succeeds, each declared type reads back as the
    descriptor loaded from its path. *)
Lemma loop_registry_declared l ty path : forall st,
  assetStore (session st) = Some store ->
  NoDup (map fst l) ->
  "__proto__" ∉ map fst l ->
  first_failure w store l = None ->
  (ty, path) ∈ l ->
  exists d, asset_result w store path = Ok d /\
    js_get ty (gameObjectTypes (session (snd (for_each l (register_type w) st))))
    = Own d.
Proof.
  induction l as [|[k v] l IH]; intros st H Hnd Hproto Hff Hin.
  - inversion Hin.
  - simpl in Hnd, Hproto. apply NoDup_cons in Hnd as [Hk Hnd].
    apply not_elem_of_cons in Hproto as [Hkp Hproto].
    rewrite for_each_cons, (register_type_run w st k v store H).
    simpl in Hff.
    destruct (asset_result w store v) as [d|e] eqn:Ev; [| discriminate].
    apply elem_of_cons in Hin as [Heq | Hin].
    + injection Heq as -> ->. exists d. split; [exact Ev |].
      rewrite loop_registry_other by assumption.
      simpl. apply js_get_set_eq. congruence.
    + now apply IH.
Qed.

End TypeLoop.

Lemma attempted_all w store l :
  first_failure w store l = None -> attempted w store l = map snd l.
Proof.
  induction l as [|[k v] l IH]; simpl; [reflexivity |].
  destruct (asset_result w store v); [| discriminate].
  intros H. now rewrite IH.
Qed.

(** C6, as the code has it. Starting uninitialized, [_init] requests the
    manifest first and then the descriptor of every declared type, one at
    a time in the enumeration order of the manifest's [gameObjectTypes]
    object (integer-like names in ascending numeric order, then the other
    names in the order of their declaration), stopping at the first load
    that fails. A failed load (of the manifest or of any descriptor) is
    re-thrown and leaves [initialized] false. When all loads succeed,
    every declared type is in the registry under its name, holding the
    descriptor loaded from its path, provided the manifest declares no
    type named [__proto__] and the prototype of the registry is still
    [Object.prototype]; [initialized] is raised exactly when the two
    collaborators could be constructed. *)
Theorem init_loads_types_in_enumeration_order (w : World) (st : State) :
  initialized (session st) = false ->
  let store := store_of (session st) in
  let st' := snd (_init w st) in
  match asset_result w store "game.json" with
  | Throw e =>
      fst (_init w st) = Throw e /\
      initialized (session st') = false /\
      asset_requests (trace st') = asset_requests (trace st) ++ ["game.json"]
  | Ok a =>
      let declared := default [] (gameObjectTypes_json (manifest_of (data a))) in
      let visited := own_property_order declared in
      asset_requests (trace st')
        = asset_requests (trace st) ++ "game.json" :: attempted w store visited /\
      match first_failure w store visited with
      | Some e =>
          fst (_init w st) = Throw e /\ initialized (session st') = false
      | None =>
          attempted w store visited = map snd visited /\
          (NoDup (map fst declared) -> "__proto__" ∉ map fst declared ->
           plain (gameObjectTypes (session st)) ->
           forall ty path, (ty, path) ∈ declared ->
             exists d, asset_result w store path = Ok d /\
                       getGameObjectTypeJSON (session st') ty = Own d) /\
          if renderer_ok w && input_ok w
          then fst (_init w st) = Ok tt /\ initialized (session st') = true
          else is_ok (fst (_init w st)) = false /\ initialized (session st') = false
      end
  end.
Proof.
  intros Hi store st'. subst st'. rewrite init_run by assumption. fold store.
  destruct (asset_result w store "game.json") as [a|e].
  - cbv zeta. unfold for_in.
    generalize (default [] (gameObjectTypes_json (manifest_of (data a)))).
    intros declared.
    assert (Hs : assetStore (session (manifest_loaded st a)) = Some store)
      by reflexivity.
    pose proof (loop_requests w store (own_property_order declared) _ Hs) as L1.
    pose proof (loop_result w store (own_property_order declared) _ Hs) as L2.
    pose proof (for_each_frame w (own_property_order declared) _ store Hs)
      as (_ & Fi & _).
    pose proof (fun ty path nd np ff =>
                  loop_registry_declared w store (own_property_order declared)
                    ty path _ Hs nd np ff) as L3.
    destruct (for_each (own_property_order declared) (register_type w)
                (manifest_loaded st a))
      as [[[]|e] st1] eqn:E; simpl in L1, L2, L3, Fi.
    + destruct (first_failure w store (own_property_order declared))
        as [e0|] eqn:Eff; [discriminate |].
      assert (Hreq : asset_requests (trace (snd (finish_init w st1)))
                     = asset_requests (trace st1)).
      { rewrite finish_init_run.
        destruct (renderer_ok w); [destruct (input_ok w) |]; simpl;
          rewrite ?asset_requests_cons; simpl; now rewrite ?app_nil_r. }
      assert (Hty : gameObjectTypes (session (snd (finish_init w st1)))
                    = gameObjectTypes (session st1)).
      { rewrite finish_init_run.
        destruct (renderer_ok w); [destruct (input_ok w) |]; reflexivity. }
      split.
      { rewrite Hreq, L1. simpl trace. rewrite !asset_requests_cons. simpl.
        now rewrite app_nil_r, <- app_assoc. }
      split; [now apply attempted_all |].
      split.
      { intros nd np _ ty path Hin. unfold getGameObjectTypeJSON. rewrite Hty.
        apply L3.
        - now rewrite own_property_order_keys.
        - now rewrite own_property_order_keys.
        - reflexivity.
        - now apply own_property_order_elem. }
      rewrite finish_init_run.
      destruct (renderer_ok w); [destruct (input_ok w) |]; simpl.
      * split; reflexivity.
      * split; [reflexivity | now rewrite Fi].
      * split; [reflexivity | now rewrite Fi].
    + destruct (first_failure w store (own_property_order declared))
        as [e0|] eqn:Eff; [| discriminate].
      injection L2 as ->. simpl.
      split.
      { rewrite L1. simpl trace. rewrite !asset_requests_cons. simpl.
        now rewrite app_nil_r, <- app_assoc. }
      split; [reflexivity | now rewrite Fi].
  - simpl. split; [reflexivity |]. split; [exact Hi |].
    rewrite !asset_requests_cons. simpl. now rewrite app_nil_r.
Qed.

Lemma init_loads_types_in_enumeration_order_witness :
  initialized (session Demo.fresh) = false /\
  asset_requests (trace (snd (_init Demo.numbered_world Demo.fresh)))
    = ["game.json"; "one.json"; "two.json"; "b.json"] /\
  fst (_init Demo.numbered_world Demo.fresh) = Ok tt /\
  initialized (session (snd (_init Demo.numbered_world Demo.fresh))) = true /\
  getGameObjectTypeJSON (session (snd (_init Demo.numbered_world Demo.fresh))) "2"
    = Own {| asset_path := "two.json"; data := DescriptorData "two.json" |}.
Proof.
  split; [reflexivity |].
  pose proof (init_loads_types_in_enumeration_order Demo.numbered_world Demo.fresh
                ltac:(vm_compute; reflexivity)) as H.
  cbv zeta in H.
  assert (Hm : asset_result Demo.numbered_world (store_of (session Demo.fresh))
                 "game.json"
               = Ok Demo.numbered_asset) by (vm_compute; reflexivity).
  rewrite Hm in H.
  cbv iota beta in H. fold Demo.numbered_types in H.
  destruct H as (Hreq & H).
  assert (Hff : first_failure Demo.numbered_world (store_of (session Demo.fresh))
                  (own_property_order Demo.numbered_types)
                = None) by (vm_compute; reflexivity).
  rewrite Hff in H. destruct H as (_ & Hreg & Hok & Hinit).
  split; [exact Hreq |]. split; [exact Hok |]. split; [exact Hinit |].
  assert (N1 : NoDup (map fst Demo.numbered_types))
    by (apply (bool_decide_unpack _); vm_compute; exact I).
  assert (N2 : "__proto__" ∉ map fst Demo.numbered_types)
    by (apply (bool_decide_unpack _); vm_compute; exact I).
  assert (N3 : ("2", "two.json") ∈ Demo.numbered_types)
    by (apply (bool_decide_unpack _); vm_compute; exact I).
  destruct (Hreg N1 N2 eq_refl "2" "two.json" N3) as (d & Hd & Hget).
  rewrite Hget. f_equal. vm_compute in Hd. now injection Hd as <-.
Defined.

(** C6 with the order of declaration fails on a manifest that declares the
    types [b], [2], [1] in that order: the descriptors are requested in
    the order [1], [2], [b]. *)
Lemma init_declaration_order_counterexample :
  ~ loads_in_declaration_order Demo.numbered_world Demo.fresh.
Proof.
  intros H.
  assert (Hm : asset_result Demo.numbered_world (store_of (session Demo.fresh))
                 "game.json"
               = Ok Demo.numbered_asset) by (vm_compute; reflexivity).
  specialize (H _ Hm).
  cbv zeta in H. fold Demo.numbered_types in H.
  assert (F : Forall
                (fun kv =>
                   is_ok (asset_result Demo.numbered_world
                            (store_of (session Demo.fresh)) (snd kv)) = true)
                Demo.numbered_types).
  { repeat constructor. }
  specialize (H F).
  vm_compute in H. discriminate H.
Qed.

(** ** Scene transitions *)

Section SceneFacts.
Variable w : World.

Lemma unload_current_run st r s :
  scene_store st !! r = Some s ->
  unload_current r st =
  (Ok tt,
   {| session := set_scene None (session st);
      scene_store := <[r := detached s]> (scene_store st);
      trace := rev (unload_hooks r s) ++ trace st |}).
Proof.
  intros H.
  assert (Hlt : r < length (scene_store st)) by (eapply lookup_lt_Some; eassumption).
  unfold unload_current, bind, emit, Scene_forEachGameObject, bind, get_scene,
    update_scene, modify_game, emit.
  simpl. rewrite H. simpl. rewrite H. simpl.
  rewrite list_lookup_insert_eq by assumption. simpl.
  rewrite list_insert_insert_eq.
  unfold unload_hooks, detached. simpl rev.
  now rewrite <- app_assoc.
Qed.

Lemma unload_current_dangling st r :
  scene_store st !! r = None ->
  unload_current r st =
  (Throw (TypeError "scene"),
   {| session := session st; scene_store := scene_store st;
      trace := EvSceneBeforeUnloaded r :: trace st |}).
Proof.
  intros H.
  unfold unload_current, bind, emit, Scene_forEachGameObject, bind, get_scene.
  simpl. now rewrite H.
Qed.

Lemma load_new_scene_run_over st name a declared :
  gameJSONAsset (session st) = Some a ->
  scenes (manifest_of (data a)) = Some declared ->
  truthy (prop_get name declared) = true ->
  let v := prop_get name declared in
  let r := length (scene_store st) in
  load_new_scene w name st =
  match build_result w v with
  | Ok objs =>
      (Ok tt,
       {| session := set_loadingScene false (set_scene (Some r) (session st));
          scene_store := scene_store st ++ [loaded_over v objs];
          trace := rev (load_hooks r objs) ++
                   EvSuspend (set_scene (Some r) (session st))
                             (scene_store st ++ [loaded_over v objs])
                   :: EvSceneLoaded r
                   :: EvSuspend (session (loading_over st v))
                                (scene_store (loading_over st v))
                   :: trace (loading_over st v) |})
  | Throw e =>
      (Throw e,
       {| session := set_scene (Some r) (session st);
          scene_store := scene_store st ++ [scene_over v];
          trace := EvSuspend (session (loading_over st v))
                             (scene_store (loading_over st v))
                   :: EvSuspend (session (loading_over st v))
                                (scene_store (loading_over st v))
                   :: trace (loading_over st v) |})
  end.
Proof.
  intros Ha Hd Hp v r.
  assert (Hnew : (scene_store st ++ [scene_over v]) !! r = Some (scene_over v))
    by (apply list_lookup_middle; reflexivity).
  unfold load_new_scene, bind at 1, get_game. rewrite Ha, Hd.
  cbv zeta. rewrite Hp. cbn [negb]. fold v.
  unfold bind at 1, Scene_new. fold (scene_over v). fold r.
  unfold bind at 1, modify_game at 1. simpl session; simpl scene_store; simpl trace.
  unfold bind at 1, this_scene at 1, bind at 1, get_game. simpl.
  unfold bind at 1, await_ at 1, Scene_load, bind at 1, get_scene.
  simpl scene_store. fold r. rewrite Hnew. simpl.
  unfold bind at 1, emit at 1. simpl.
  unfold bind at 1, await_ at 1, ret, suspended. simpl.
  destruct (build_result w v) as [objs|e]; [| reflexivity].
  unfold bind at 1, update_scene. simpl scene_store. fold r. rewrite Hnew.
  simpl.
  replace (<[r:=loaded_over v objs]> (scene_store st ++ [scene_over v]))
    with (scene_store st ++ [loaded_over v objs]).
  2:{ rewrite insert_app_r_alt by (unfold r; lia).
      replace (r - length (scene_store st)) with 0 by (unfold r; lia).
      reflexivity. }
  assert (Hld : (scene_store st ++ [loaded_over v objs]) !! r
                = Some (loaded_over v objs))
    by (apply list_lookup_middle; reflexivity).
  unfold bind, modify_game, this_scene, bind, get_game, emit,
    Scene_forEachGameObject, bind, get_scene, emit.
  simpl. fold r. rewrite Hld. simpl.
  unfold load_hooks, loading_over. simpl rev. fold r.
  now rewrite <- app_assoc.
Qed.

(** A declared name with a non-empty path reads as that path. *)
Lemma prop_get_declared name declared path :
  truthy_string (prop_lookup name declared) = Some path ->
  prop_get name declared = VString path /\ truthy (VString path) = true.
Proof.
  unfold prop_get, truthy_string.
  destruct (prop_lookup name declared) as [p|]; [| discriminate].
  destruct (String.eqb p "") eqn:E; [discriminate |].
  intros [= <-]. split; [reflexivity |]. simpl. now rewrite E.
Qed.

Lemma load_new_scene_run st name a declared path :
  gameJSONAsset (session st) = Some a ->
  scenes (manifest_of (data a)) = Some declared ->
  truthy_string (prop_lookup name declared) = Some path ->
  let r := length (scene_store st) in
  load_new_scene w name st =
  match scene_result w path with
  | Ok objs =>
      (Ok tt,
       {| session := set_loadingScene false (set_scene (Some r) (session st));
          scene_store := scene_store st ++ [loaded_scene path objs];
          trace := rev (load_hooks r objs) ++
                   EvSuspend (set_scene (Some r) (session st))
                             (scene_store st ++ [loaded_scene path objs])
                   :: EvSceneLoaded r
                   :: EvSuspend (session (loading st path))
                                (scene_store (loading st path))
                   :: trace (loading st path) |})
  | Throw e =>
      (Throw e,
       {| session := set_scene (Some r) (session st);
          scene_store := scene_store st ++ [new_scene path];
          trace := EvSuspend (session (loading st path))
                             (scene_store (loading st path))
                   :: EvSuspend (session (loading st path))
                                (scene_store (loading st path))
                   :: trace (loading st path) |})
  end.
Proof.
  intros Ha Hd Hp r.
  destruct (prop_get_declared name declared path Hp) as [Hv Ht].
  pose proof (load_new_scene_run_over st name a declared Ha Hd) as H.
  rewrite Hv in H. specialize (H Ht). exact H.
Qed.

Lemma load_new_scene_unknown st name a declared :
  gameJSONAsset (session st) = Some a ->
  scenes (manifest_of (data a)) = Some declared ->
  truthy (prop_get name declared) = false ->
  load_new_scene w name st = (Throw (UnknownScene name), st).
Proof.
  intros Ha Hd Hp. unfold load_new_scene, bind, get_game. rewrite Ha, Hd.
  cbv zeta. now rewrite Hp.
Qed.

End SceneFacts.

Section EnsureInitialized.
Variable w : World.

Lemma suspended_quiet st : quiet st (suspended st).
Proof.
  constructor; try reflexivity.
  eexists [_]. split; [reflexivity |]. repeat constructor.
Qed.

Lemma ensure_initialized_ready st :
  initialized (session st) = true -> ensure_initialized w st = (Ok tt, st).
Proof. intros H. unfold ensure_initialized, bind, get_game. now rewrite H. Qed.

Lemma ensure_initialized_fresh st :
  initialized (session st) = false ->
  ensure_initialized w st = (fst (_init w st), suspended (snd (_init w st))).
Proof.
  intros H. unfold ensure_initialized, bind, get_game, await_. rewrite H. simpl.
  now destruct (_init w st).
Qed.

Lemma ensure_initialized_quiet st : quiet st (snd (ensure_initialized w st)).
Proof.
  destruct (initialized (session st)) eqn:H.
  - rewrite ensure_initialized_ready by assumption. apply quiet_refl.
  - rewrite ensure_initialized_fresh by assumption. simpl.
    eapply quiet_trans; [apply init_quiet | apply suspended_quiet].
Qed.

End EnsureInitialized.

(** ** What can be observed of the scene slot *)

Lemma same_but_scene_fields g g' :
  same_but_scene g g' ->
  gameOptions g' = gameOptions g /\ initialized g' = initialized g /\
  baseURL g' = baseURL g /\ dirHandle g' = dirHandle g /\
  gameJSONAsset g' = gameJSONAsset g /\ renderer g' = renderer g /\
  assetStore g' = assetStore g /\ inputManager g' = inputManager g /\
  gameObjectTypes g' = gameObjectTypes g /\
  gameObjectClasses g' = gameObjectClasses g.
Proof.
  unfold same_but_scene. intros H.
  repeat split;
    [ apply (f_equal gameOptions) in H | apply (f_equal initialized) in H
    | apply (f_equal baseURL) in H | apply (f_equal dirHandle) in H
    | apply (f_equal gameJSONAsset) in H | apply (f_equal renderer) in H
    | apply (f_equal assetStore) in H | apply (f_equal inputManager) in H
    | apply (f_equal gameObjectTypes) in H | apply (f_equal gameObjectClasses) in H ];
    exact H.
Qed.

Lemma same_but_scene_refl g : same_but_scene g g.
Proof. now destruct g. Qed.

Lemma same_but_scene_set_scene g x : same_but_scene g (set_scene x g).
Proof. now destruct g. Qed.

Lemma same_but_scene_set_flag g b : same_but_scene g (set_loadingScene b g).
Proof. now destruct g. Qed.

Lemma same_but_scene_trans a b c :
  same_but_scene a b -> same_but_scene b c -> same_but_scene a c.
Proof.
  unfold same_but_scene. destruct a, b, c; simpl.
  intros H1 H2. injection H1 as -> -> -> -> -> -> -> -> -> ->.
  injection H2 as -> -> -> -> -> -> -> -> -> ->. reflexivity.
Qed.

Lemma elem_of_rev {A} (x : A) (l : list A) : x ∈ l -> x ∈ rev l.
Proof. rewrite !list_elem_of_In. apply in_rev. Qed.




Section Transition.
Variable w : World.

Lemma loadScene_guard (v : JSValue) st :
  loadingScene (session st) = true ->
  loadScene w v st = (Throw ConcurrentLoadError, st).
Proof. intros H. unfold loadScene, bind, get_game. now rewrite H. Qed.

Lemma loadScene_not_string (v : JSValue) st :
  loadingScene (session st) = false ->
  (forall s, v <> VString s) ->
  loadScene w v st = (Throw InvalidSceneName, guarded st).
Proof.
  intros H Hv. unfold loadScene, bind, get_game. rewrite H.
  destruct v; try reflexivity. now destruct (Hv s).
Qed.

Lemma loadScene_run name st :
  loadingScene (session st) = false ->
  loadScene w (VString name) st =
  match ensure_initialized w (guarded st) with
  | (Ok _, st') => transition w name st'
  | (Throw e, st') => (Throw e, st')
  end.
Proof.
  intros H. unfold loadScene, bind at 1, get_game. rewrite H.
  unfold bind at 1, modify_game at 1. fold (guarded st).
  unfold bind at 1.
  destruct (ensure_initialized w (guarded st)) as [[[]|e] st']; reflexivity.
Qed.

Lemma unload_if_active_run st :
  unload_if_active st =
  match scene (session st) with
  | None => (Ok tt, st)
  | Some r =>
      match scene_store st !! r with
      | Some s =>
          (Ok tt,
           {| session := set_scene None (session st);
              scene_store := <[r := detached s]> (scene_store st);
              trace := rev (unload_hooks r s) ++ trace st |})
      | None =>
          (Throw (TypeError "scene"),
           {| session := session st; scene_store := scene_store st;
              trace := EvSceneBeforeUnloaded r :: trace st |})
      end
  end.
Proof.
  unfold unload_if_active, bind, get_game.
  destruct (scene (session st)) as [r|]; [| reflexivity].
  destruct (scene_store st !! r) as [s|] eqn:Hs.
  - now apply unload_current_run.
  - now apply unload_current_dangling.
Qed.

Lemma unload_hooks_flagged r s : flagged (rev (unload_hooks r s)).
Proof.
  unfold flagged. apply Forall_rev. unfold unload_hooks.
  constructor; [exact I |]. apply Forall_map. now apply Forall_true.
Qed.

(** The unloading block: the slot is emptied, nothing else of the session
    changes, and no suspension occurs. *)
Lemma unload_if_active_outcome st :
  let st' := snd (unload_if_active st) in
  same_but_scene (session st) (session st') /\
  loadingScene (session st') = loadingScene (session st) /\
  length (scene_store st') = length (scene_store st) /\
  (exists new, trace st' = new ++ trace st /\ flagged new) /\
  (is_ok (fst (unload_if_active st)) = true -> scene (session st') = None).
Proof.
  rewrite unload_if_active_run.
  destruct (scene (session st)) as [r|] eqn:Hr.
  - destruct (scene_store st !! r) as [s|] eqn:Hs; simpl.
    + repeat split; try reflexivity.
      * apply same_but_scene_set_scene.
      * apply length_insert.
      * eexists. split; [reflexivity | apply unload_hooks_flagged].
    + repeat split; try reflexivity.
      * apply same_but_scene_refl.
      * exists [EvSceneBeforeUnloaded r]. split; [reflexivity |].
        repeat constructor.
      * discriminate.
  - simpl. repeat split; try reflexivity.
    + apply same_but_scene_refl.
    + exists []. split; [reflexivity | constructor].
    + now rewrite Hr.
Qed.

End Transition.

Section TransitionOutcome.
Variable w : World.

Lemma load_new_scene_outcome name st :
  loadingScene (session st) = true ->
  let st' := snd (load_new_scene w name st) in
  same_but_scene (session st) (session st') /\
  (exists new, trace st' = new ++ trace st /\ flagged new) /\
  match fst (load_new_scene w name st) with
  | Ok _ =>
      loadingScene (session st') = false /\
      slot_ok (session st') (scene_store st') (trace st')
  | Throw _ => loadingScene (session st') = true
  end.
Proof.
  intros Hflag.
  assert (Hstay : forall e,
            load_new_scene w name st = (Throw e, st) ->
            let st' := snd (load_new_scene w name st) in
            same_but_scene (session st) (session st') /\
            (exists new, trace st' = new ++ trace st /\ flagged new) /\
            match fst (load_new_scene w name st) with
            | Ok _ =>
                loadingScene (session st') = false /\
                slot_ok (session st') (scene_store st') (trace st')
            | Throw _ => loadingScene (session st') = true
            end).
  { intros e ->. simpl. split; [apply same_but_scene_refl |].
    split; [exists []; split; [reflexivity | constructor] | exact Hflag]. }
  destruct (gameJSONAsset (session st)) as [a|] eqn:Ha.
  2:{ apply (Hstay (TypeError "gameJSONAsset")).
      unfold load_new_scene, bind, get_game. now rewrite Ha. }
  destruct (scenes (manifest_of (data a))) as [declared|] eqn:Hd.
  2:{ apply (Hstay (TypeError "scenes")).
      unfold load_new_scene, bind, get_game. now rewrite Ha, Hd. }
  destruct (truthy (prop_get name declared)) eqn:Hp.
  2:{ apply (Hstay (UnknownScene name)). now apply load_new_scene_unknown with a declared. }
  rewrite (load_new_scene_run_over w st name a declared Ha Hd Hp).
  unfold loading_over.
  destruct (build_result w (prop_get name declared)) as [objs|e];
    cbn [fst snd session scene_store trace].
  - split.
    { eapply same_but_scene_trans;
        [apply same_but_scene_set_scene | apply same_but_scene_set_flag]. }
    split.
    { eexists (rev (load_hooks _ objs) ++ [_; _; _; _]). split.
      - rewrite <- app_assoc. reflexivity.
      - apply Forall_app. split.
        + apply Forall_rev. constructor; [exact I |].
          apply Forall_map. now apply Forall_true.
        + repeat constructor; simpl; exact Hflag. }
    split; [reflexivity |].
    unfold slot_ok. cbn [scene set_loadingScene set_scene].
    exists (loaded_over (prop_get name declared) objs).
    split; [apply list_lookup_middle; reflexivity |].
    repeat split.
    apply Forall_forall. intros e He.
    apply elem_of_app. left. now apply elem_of_rev.
  - split; [apply same_but_scene_set_scene |].
    split; [| exact Hflag].
    eexists [_; _; _]. split; [reflexivity |].
    repeat constructor; simpl; exact Hflag.
Qed.

Lemma flagged_app a b : flagged a -> flagged b -> flagged (a ++ b).
Proof. intros Ha Hb. apply Forall_app. now split. Qed.

(** A transition either completes, leaving the guard down and the slot
    sound, or throws with the guard still up; it is only ever parked
    with the guard up, and changes nothing of the session but the slot
    and the guard. *)
Lemma transition_outcome name st :
  loadingScene (session st) = true ->
  let st' := snd (transition w name st) in
  same_but_scene (session st) (session st') /\
  (exists new, trace st' = new ++ trace st /\ flagged new) /\
  match fst (transition w name st) with
  | Ok _ =>
      loadingScene (session st') = false /\
      slot_ok (session st') (scene_store st') (trace st')
  | Throw _ => loadingScene (session st') = true
  end.
Proof.
  intros Hflag. unfold transition, bind.
  pose proof (unload_if_active_outcome st) as (Hs & Hf & _ & (n1 & Ht1 & Hq1) & _).
  destruct (unload_if_active st) as [[[]|e] st1]; simpl in Hs, Hf, Ht1.
  - rewrite Hflag in Hf.
    pose proof (load_new_scene_outcome name st1 Hf) as (Hs2 & (n2 & Ht2 & Hq2) & Hr).
    split; [eapply same_but_scene_trans; eassumption |].
    split; [| exact Hr].
    exists (n2 ++ n1). split; [| now apply flagged_app].
    rewrite Ht2, Ht1. now rewrite app_assoc.
  - simpl. split; [exact Hs |]. split; [| congruence].
    exists n1. now split.
Qed.

End TransitionOutcome.

Section LoadSceneOutcome.
Variable w : World.

Lemma quiet_flagged st new :
  loadingScene (session st) = true ->
  Forall (quiet_event st) new -> flagged new.
Proof.
  intros Hflag Hq. eapply Forall_impl; [exact Hq |].
  intros e He. destruct e; try exact I.
  destruct He as (_ & Hf & _). now rewrite Hf.
Qed.

(** Past its guard, [loadScene] is only ever parked with the guard up;
    it ends with the guard down and the slot sound when it returns, and
    with the guard still up when it throws. *)
Lemma loadScene_outcome (v : JSValue) st :
  loadingScene (session st) = false ->
  let st' := snd (loadScene w v st) in
  (exists new, trace st' = new ++ trace st /\ flagged new) /\
  match fst (loadScene w v st) with
  | Ok _ =>
      loadingScene (session st') = false /\
      slot_ok (session st') (scene_store st') (trace st')
  | Throw _ => loadingScene (session st') = true
  end.
Proof.
  intros Hflag.
  destruct v as [| | b | n | name | h | id | member];
    try (rewrite loadScene_not_string by (assumption || discriminate); simpl;
         split; [exists []; split; [reflexivity | constructor] | reflexivity]).
  rewrite loadScene_run by assumption.
  pose proof (ensure_initialized_quiet w (guarded st))
    as [_ _ Hf _ _ _ _ (n1 & Ht1 & Hq1)].
  apply quiet_flagged in Hq1; [| reflexivity].
  destruct (ensure_initialized w (guarded st)) as [[[]|e] st1]; simpl in Hf, Ht1.
  - pose proof (transition_outcome w name st1 Hf) as (_ & (n2 & Ht2 & Hq2) & Hr).
    split; [| exact Hr].
    exists (n2 ++ n1). split; [| now apply flagged_app].
    rewrite Ht2, Ht1. now rewrite app_assoc.
  - simpl. split; [| exact Hf]. exists n1. now split.
Qed.


End LoadSceneOutcome.

(** ** The single-flight guard (C5, C1) *)

(** C5. A [loadScene] call made while the guard flag is set throws
    ConcurrentLoadError at once: the session, the scene store and the
    trace are left exactly as they were. The flag is set at every point at
    which an earlier [loadScene] call is parked, so a second call made
    there, whatever its argument and whatever the rest of the machine
    state, is rejected this way. *)
Theorem loadScene_rejects_concurrent_call (w : World) (v : JSValue) (st : State) :
  (loadingScene (session st) = true ->
   loadScene w v st = (Throw ConcurrentLoadError, st)) /\
  (loadingScene (session st) = false ->
   forall g h, parked_during st (snd (loadScene w v st)) g h ->
     loadingScene g = true /\
     forall w' v' tr',
       loadScene w' v' {| session := g; scene_store := h; trace := tr' |}
       = (Throw ConcurrentLoadError,
          {| session := g; scene_store := h; trace := tr' |})).
Proof.
  split.
  - apply loadScene_guard.
  - intros Hflag g h (new & Ht & Hin).
    pose proof (loadScene_outcome w v st Hflag) as ((new' & Ht' & Hq) & _).
    rewrite Ht in Ht'. apply app_inv_tail in Ht'. subst new'.
    unfold flagged in Hq. rewrite Forall_forall in Hq.
    specialize (Hq _ Hin). simpl in Hq.
    split; [exact Hq |].
    intros w' v' tr'. now apply loadScene_guard.
Qed.

(** C1, as the code has it. A [loadScene] call that passes the guard and
    then throws leaves the guard flag set, and the next [loadScene] call
    is rejected with ConcurrentLoadError. *)
Theorem loadScene_failure_wedges_guard (w : World) (v : JSValue) (st : State) (e : Error) :
  loadingScene (session st) = false ->
  fst (loadScene w v st) = Throw e ->
  loadingScene (session (snd (loadScene w v st))) = true /\
  forall w' v',
    loadScene w' v' (snd (loadScene w v st))
    = (Throw ConcurrentLoadError, snd (loadScene w v st)).
Proof.
  intros Hflag Hthrow.
  pose proof (loadScene_outcome w v st Hflag) as (_ & Hr).
  rewrite Hthrow in Hr.
  split; [exact Hr |].
  intros w' v'. now apply loadScene_guard.
Qed.

Lemma loadScene_rejects_concurrent_call_witness :
  loadingScene (session (guarded Demo.fresh)) = true /\
  loadScene Demo.world (VString "main") (guarded Demo.fresh)
  = (Throw ConcurrentLoadError, guarded Demo.fresh) /\
  loadingScene (session Demo.fresh) = false /\
  let parked := snd (loadScene Demo.broken_world (VString "main") Demo.fresh) in
  parked_during Demo.fresh parked (session parked) (scene_store parked) /\
  forall tr,
    fst (loadScene Demo.world (VString "menu")
           {| session := session parked; scene_store := scene_store parked;
              trace := tr |})
    = Throw ConcurrentLoadError.
Proof.
  split; [reflexivity |].
  split.
  { exact (proj1 (loadScene_rejects_concurrent_call
                    Demo.world (VString "main") (guarded Demo.fresh)) eq_refl). }
  split; [reflexivity |].
  intros parked.
  assert (Hp : parked_during Demo.fresh parked (session parked) (scene_store parked)).
  { exists (trace parked). split.
    - symmetry. apply app_nil_r.
    - vm_compute. apply list_elem_of_here. }
  split; [exact Hp |].
  destruct (proj2 (loadScene_rejects_concurrent_call
                     Demo.broken_world (VString "main") Demo.fresh)
              eq_refl _ _ Hp) as [_ Hnext].
  intros tr.
  now rewrite (Hnext Demo.world (VString "menu") tr).
Defined.

Lemma loadScene_failure_wedges_guard_witness :
  loadingScene (session Demo.fresh) = false /\
  fst (loadScene Demo.world (VString "missing") Demo.fresh)
  = Throw (UnknownScene "missing") /\
  loadingScene (session (snd (loadScene Demo.world (VString "missing") Demo.fresh)))
  = true /\
  fst (loadScene Demo.world (VString "main")
         (snd (loadScene Demo.world (VString "missing") Demo.fresh)))
  = Throw ConcurrentLoadError.
Proof.
  split; [reflexivity |]. split; [vm_compute; reflexivity |].
  destruct (loadScene_failure_wedges_guard Demo.world (VString "missing") Demo.fresh
              (UnknownScene "missing") eq_refl ltac:(vm_compute; reflexivity))
    as [Hflag Hnext].
  split; [exact Hflag |].
  now rewrite (Hnext Demo.world (VString "main")).
Defined.

(** ** Unknown scene names (C2) *)

Section UnknownScene.
Variable w : World.

Lemma loadScene_ready_run name st :
  loadingScene (session st) = false ->
  initialized (session st) = true ->
  loadScene w (VString name) st = transition w name (guarded st).
Proof.
  intros Hf Hi. rewrite loadScene_run by assumption.
  now rewrite ensure_initialized_ready.
Qed.

End UnknownScene.

(** C2, as the code has it. Called with the guard down on a session that
    is or can be initialized, with a name under which the manifest's
    scenes object holds nothing ([scenes[name]] is [undefined]: the name
    is neither declared nor that of a member objects inherit, such as
    [constructor]), [loadScene] fails with UnknownScene, but only after
    the scene in the slot, if any, has been unloaded: the scene's
    pre-unload hook and then those of its game objects, in pre-order, have
    run, the scene is detached from the session and inactive, and the
    slot is empty. *)
Theorem loadScene_unknown_scene_unloads_first
    (w : World) (name : string) (st st1 : State)
    (a : JSONAsset) (declared : list (string * string)) :
  loadingScene (session st) = false ->
  ensure_initialized w (guarded st) = (Ok tt, st1) ->
  gameJSONAsset (session st1) = Some a ->
  scenes (manifest_of (data a)) = Some declared ->
  prop_get name declared = VUndefined ->
  let st' := snd (loadScene w (VString name) st) in
  match scene (session st) with
  | None =>
      fst (loadScene w (VString name) st) = Throw (UnknownScene name) /\
      scene (session st') = None /\
      scene_store st' = scene_store st /\
      trace st' = trace st1
  | Some r =>
      forall s, scene_store st !! r = Some s ->
        fst (loadScene w (VString name) st) = Throw (UnknownScene name) /\
        scene (session st') = None /\
        scene_store st' = <[r := detached s]> (scene_store st) /\
        scene_store st' !! r = Some (detached s) /\
        rev (trace st') = rev (trace st1) ++ unload_hooks r s
  end.
Proof.
  intros Hflag Hinit Ha Hd Hp st'. subst st'.
  rewrite loadScene_run by assumption. rewrite Hinit.
  pose proof (ensure_initialized_quiet w (guarded st)) as [Hs Hc _ _ _ _ _ _].
  rewrite Hinit in Hs, Hc. simpl in Hs, Hc.
  unfold transition, bind. rewrite unload_if_active_run, Hc, Hs.
  assert (Hnone : truthy (prop_get name declared) = false)
    by now rewrite Hp.
  destruct (scene (session st)) as [r|].
  - intros s Hr. rewrite Hr.
    erewrite load_new_scene_unknown by eassumption.
    cbn [fst snd session scene_store trace scene set_scene].
    repeat split.
    + apply list_lookup_insert_eq. eapply lookup_lt_Some; eassumption.
    + now rewrite rev_app_distr, rev_involutive.
  - erewrite load_new_scene_unknown by eassumption. simpl.
    repeat split; assumption.
Qed.

Lemma loadScene_unknown_scene_unloads_first_witness :
  loadingScene (session Demo.with_main) = false /\
  fst (loadScene Demo.world (VString "missing") Demo.with_main)
  = Throw (UnknownScene "missing") /\
  scene (session (snd (loadScene Demo.world (VString "missing") Demo.with_main)))
  = None /\
  scene_store (snd (loadScene Demo.world (VString "missing") Demo.with_main)) !! 0
  = Some (detached (loaded_scene "main.json" Demo.box_tree)).
Proof.
  split; [vm_compute; reflexivity |].
  pose proof (loadScene_unknown_scene_unloads_first
                Demo.world "missing" Demo.with_main (guarded Demo.with_main)
                {| asset_path := "game.json"; data := ManifestData Demo.manifest |}
                [("main", "main.json"); ("menu", "menu.json")]
                ltac:(vm_compute; reflexivity) ltac:(vm_compute; reflexivity)
                ltac:(vm_compute; reflexivity) ltac:(vm_compute; reflexivity)
                ltac:(vm_compute; reflexivity)) as H.
  assert (E : scene (session Demo.with_main) = Some 0) by (vm_compute; reflexivity).
  cbv zeta in H. rewrite E in H.
  specialize (H (loaded_scene "main.json" Demo.box_tree) ltac:(vm_compute; reflexivity)).
  destruct H as (Hr & Hslot & _ & Hstore & _).
  repeat split; assumption.
Defined.

(** The scenario of C2 fails on the code: with [main] active, asking for a
    scene the manifest does not declare empties the slot. *)
Lemma loadScene_unknown_scene_counterexample :
  ~ unknown_scene_leaves_untouched Demo.world "missing" Demo.with_main.
Proof.
  intros (_ & Hslot & _). vm_compute in Hslot. discriminate.
Qed.

(** ** Order of the lifecycle hooks (C4) *)

Lemma rev_cons3 {A} (a b c : A) (l : list A) :
  rev (a :: b :: c :: l) = rev l ++ [c; b; a].
Proof. simpl. now rewrite <- !app_assoc. Qed.

Lemma rev_cons4 {A} (a b c d : A) (l : list A) :
  rev (a :: b :: c :: d :: l) = rev l ++ [d; c; b; a].
Proof. simpl. now rewrite <- !app_assoc. Qed.

(** C4. When [loadScene] replaces the active scene of an initialized
    session, the trace continues with the old scene's pre-unload hook,
    the pre-unload hooks of its game objects in pre-order, the start of
    the new scene's load, its completion, and only then the new scene's
    post-load hook followed by the post-load hooks of the game objects the
    load produced, in pre-order. When the load fails no post-load hook
    runs at all. *)
Theorem loadScene_hook_order
    (w : World) (name : string) (st : State) (r0 : nat) (s0 : Scene)
    (a : JSONAsset) (declared : list (string * string)) (path : string) :
  loadingScene (session st) = false ->
  initialized (session st) = true ->
  scene (session st) = Some r0 ->
  scene_store st !! r0 = Some s0 ->
  gameJSONAsset (session st) = Some a ->
  scenes (manifest_of (data a)) = Some declared ->
  truthy_string (prop_lookup name declared) = Some path ->
  let r := length (scene_store st) in
  let st' := snd (loadScene w (VString name) st) in
  exists g1 h1 g2 h2,
    h1 !! r = Some (new_scene path) /\
    match scene_result w path with
    | Ok objs =>
        fst (loadScene w (VString name) st) = Ok tt /\
        scene (session st') = Some r /\
        scene_store st' !! r = Some (loaded_scene path objs) /\
        h2 !! r = Some (loaded_scene path objs) /\
        rev (trace st') =
          rev (trace st) ++ unload_hooks r0 s0
          ++ [EvSceneLoad r; EvSuspend g1 h1; EvSceneLoaded r; EvSuspend g2 h2]
          ++ load_hooks r objs
    | Throw e =>
        fst (loadScene w (VString name) st) = Throw e /\
        rev (trace st') =
          rev (trace st) ++ unload_hooks r0 s0
          ++ [EvSceneLoad r; EvSuspend g1 h1; EvSuspend g2 h2]
    end.
Proof.
  intros Hflag Hinit Hslot Hs0 Ha Hd Hp r st'. subst st'.
  rewrite loadScene_ready_run by assumption.
  unfold transition, bind. rewrite unload_if_active_run.
  cbn [guarded session scene_store set_loadingScene scene]. rewrite Hslot, Hs0.
  set (st1 := {| session := _; scene_store := <[r0:=detached s0]> (scene_store st);
                 trace := _ |}).
  assert (Hlen : length (scene_store st1) = r) by apply length_insert.
  rewrite (load_new_scene_run w st1 name a declared path Ha Hd Hp).
  rewrite Hlen. unfold loading. rewrite Hlen.
  destruct (scene_result w path) as [objs|e];
    cbn [fst snd session scene_store trace scene set_scene set_loadingScene].
  - eexists _, (scene_store st1 ++ [new_scene path]),
            _, (scene_store st1 ++ [loaded_scene path objs]).
    split; [apply list_lookup_middle; now rewrite Hlen |].
    split; [reflexivity |]. split; [reflexivity |].
    split; [apply list_lookup_middle; now rewrite Hlen |].
    split; [apply list_lookup_middle; now rewrite Hlen |].
    subst st1. cbn [trace scene_store guarded].
    rewrite rev_app_distr, rev_involutive, rev_cons4.
    rewrite rev_app_distr, rev_involutive.
    rewrite <- !app_assoc. reflexivity.
  - eexists _, (scene_store st1 ++ [new_scene path]), _, _.
    split; [apply list_lookup_middle; now rewrite Hlen |].
    split; [reflexivity |].
    subst st1. cbn [trace scene_store guarded].
    rewrite rev_cons3, rev_app_distr, rev_involutive.
    rewrite <- !app_assoc. reflexivity.
Qed.

Lemma loadScene_hook_order_witness :
  loadingScene (session Demo.with_main) = false /\
  initialized (session Demo.with_main) = true /\
  scene (session Demo.with_main) = Some 0 /\
  exists g1 h1 g2 h2,
    rev (trace (snd (loadScene Demo.world (VString "menu") Demo.with_main)))
    = rev (trace Demo.with_main)
      ++ [EvSceneBeforeUnloaded 0; EvObjectBeforeUnloaded 0 "Box";
          EvObjectBeforeUnloaded 0 "Lid"; EvObjectBeforeUnloaded 0 "Floor";
          EvSceneLoad 1; EvSuspend g1 h1; EvSceneLoaded 1; EvSuspend g2 h2;
          EvSceneAfterLoaded 1; EvObjectAfterLoaded 1 "Title"].
Proof.
  split; [vm_compute; reflexivity |].
  split; [vm_compute; reflexivity |].
  split; [vm_compute; reflexivity |].
  destruct (loadScene_hook_order
              Demo.world "menu" Demo.with_main 0
              (loaded_scene "main.json" Demo.box_tree)
              {| asset_path := "game.json"; data := ManifestData Demo.manifest |}
              [("main", "main.json"); ("menu", "menu.json")] "menu.json"
              ltac:(vm_compute; reflexivity) ltac:(vm_compute; reflexivity)
              ltac:(vm_compute; reflexivity) ltac:(vm_compute; reflexivity)
              ltac:(vm_compute; reflexivity) ltac:(vm_compute; reflexivity)
              ltac:(vm_compute; reflexivity))
    as (g1 & h1 & g2 & h2 & _ & H).
  assert (E : scene_result Demo.world "menu.json" = Ok [GameObjectNode "Title" []])
    by (vm_compute; reflexivity).
  rewrite E in H. destruct H as (_ & _ & _ & _ & Htrace).
  assert (L : length (scene_store Demo.with_main) = 1) by (vm_compute; reflexivity).
  rewrite L in Htrace.
  exists g1, h1, g2, h2. rewrite Htrace. reflexivity.
Defined.

(** ** play and loadAsset, block by block *)

Section PlayBlocks.
Variable w : World.

Lemma play_run st :
  play w st =
  match ensure_initialized w st with
  | (Ok _, st1) =>
      match start_initial_scene w st1 with
      | (Ok _, st2) => start_render_loop st2
      | (Throw e, st2) => (Throw e, st2)
      end
  | (Throw e, st1) => (Throw e, st1)
  end.
Proof.
  unfold play, bind.
  destruct (ensure_initialized w st) as [[[]|e] st1]; [| reflexivity].
  destruct (start_initial_scene w st1) as [[[]|e] st2]; reflexivity.
Qed.

Lemma start_render_loop_run st :
  start_render_loop st =
  match renderer (session st) with
  | Some r =>
      (Ok tt,
       {| session := set_renderer (Some (Renderer_play r)) (session st);
          scene_store := scene_store st;
          trace := EvRendererPlay :: trace st |})
  | None => (Throw (TypeError "renderer"), st)
  end.
Proof.
  unfold start_render_loop, bind, get_game.
  now destruct (renderer (session st)).
Qed.

Lemma start_render_loop_quiet st : quiet st (snd (start_render_loop st)).
Proof.
  rewrite start_render_loop_run. destruct (renderer (session st)); simpl.
  - constructor; try reflexivity.
    exists [EvRendererPlay]. split; [reflexivity |]. repeat constructor.
  - apply quiet_refl.
Qed.

Lemma pause_quiet st : quiet st (snd (pause st)).
Proof.
  unfold pause, bind, get_game. destruct (renderer (session st)); simpl.
  - constructor; try reflexivity.
    exists [EvRendererPause]. split; [reflexivity |]. repeat constructor.
  - apply quiet_refl.
Qed.

Lemma load_via_store_quiet path st :
  quiet st (snd (await_ (load_via_store w path) st)).
Proof.
  destruct (assetStore (session st)) as [store|] eqn:H.
  - rewrite (load_via_store_run w st path store H). simpl.
    constructor; try reflexivity.
    eexists [_; _]. split; [reflexivity |]. repeat constructor.
  - unfold await_, load_via_store, bind, get_game, throw. rewrite H. simpl.
    apply suspended_quiet.
Qed.

Lemma loadAsset_quiet path st : quiet st (snd (loadAsset w path st)).
Proof.
  unfold loadAsset, bind.
  pose proof (ensure_initialized_quiet w st) as Q.
  destruct (ensure_initialized w st) as [[[]|e] st1]; simpl in Q; [| exact Q].
  eapply quiet_trans; [exact Q | apply load_via_store_quiet].
Qed.



End PlayBlocks.

(** ** Sessions as sequences of calls *)

Lemma run_calls_invariant (I : State -> Prop) calls :
  (forall wc st, wc ∈ calls -> I st -> I (run_call wc st)) ->
  forall st, I st -> I (run_calls calls st).
Proof.
  induction calls as [|wc calls IH]; intros Hstep st Hst; [exact Hst |].
  simpl. apply IH.
  - intros wc' st' Hin. apply Hstep. now apply list_elem_of_further.
  - apply Hstep; [apply list_elem_of_here | exact Hst].
Qed.


(** ** The scene slot at observable points (C3) *)





(** ** The registries across calls (C9) *)

Section RegistryKept.
Variable w : World.
Variable ty : string.

Lemma registry_kept_refl st : registry_kept w ty st st.
Proof. repeat split; reflexivity. Qed.

Lemma registry_kept_trans a b c :
  registry_kept w ty a b -> registry_kept w ty b c -> registry_kept w ty a c.
Proof.
  intros (k1 & b1 & h1 & t1) (k2 & b2 & h2 & t2).
  repeat split; try congruence.
  intros Hu Hp. rewrite t2, t1; try assumption; [reflexivity | |];
    unfold undeclared, store_of in *; now rewrite b1, h1.
Qed.

(** Steps that leave the two registries and the base location as they
    are. *)
Lemma registry_kept_same st st' :
  gameObjectTypes (session st') = gameObjectTypes (session st) ->
  gameObjectClasses (session st') = gameObjectClasses (session st) ->
  baseURL (session st') = baseURL (session st) ->
  dirHandle (session st') = dirHandle (session st) ->
  registry_kept w ty st st'.
Proof. intros Ht Hk Hb Hh. repeat split; try assumption. intros _ _. now rewrite Ht. Qed.

Lemma registry_kept_but_scene st st' :
  same_but_scene (session st) (session st') -> registry_kept w ty st st'.
Proof.
  intros H. apply same_but_scene_fields in H
    as (_ & _ & Hb & Hh & _ & _ & _ & _ & Ht & Hk).
  now apply registry_kept_same.
Qed.

Lemma init_registry_kept st : registry_kept w ty st (snd (_init w st)).
Proof.
  pose proof (init_quiet w st) as [_ _ _ Hk Hb Hh _ _].
  repeat split; try assumption.
  intros Hu Hp. destruct (initialized (session st)) eqn:Hi.
  - unfold _init, bind, get_game. now rewrite Hi.
  - rewrite init_run by assumption.
    destruct (asset_result w (store_of (session st)) "game.json") as [a|e] eqn:Ea;
      [| reflexivity].
    specialize (Hu a Ea). specialize (Hp a Ea).
    rewrite <- own_property_order_keys in Hu, Hp.
    pose proof (loop_registry_other w (store_of (session st)) _ ty
                  (manifest_loaded st a) eq_refl Hu Hp) as L.
    unfold for_in.
    destruct (for_each _ (register_type w) (manifest_loaded st a))
      as [[[]|e] st1]; simpl in L |- *.
    + rewrite finish_init_run.
      destruct (renderer_ok w); [destruct (input_ok w) |]; exact L.
    + exact L.
Qed.

Lemma ensure_initialized_registry_kept st :
  registry_kept w ty st (snd (ensure_initialized w st)).
Proof.
  destruct (initialized (session st)) eqn:H.
  - rewrite ensure_initialized_ready by assumption. apply registry_kept_refl.
  - rewrite ensure_initialized_fresh by assumption. apply init_registry_kept.
Qed.

Lemma loadScene_registry_kept (v : JSValue) st :
  registry_kept w ty st (snd (loadScene w v st)).
Proof.
  destruct (loadingScene (session st)) eqn:Hflag.
  - rewrite loadScene_guard by assumption. apply registry_kept_refl.
  - assert (Hg : registry_kept w ty st (guarded st))
      by (apply registry_kept_but_scene, same_but_scene_set_flag).
    destruct v as [| | b | n | name | h | id | member];
      try (rewrite loadScene_not_string by (assumption || discriminate);
           exact Hg).
    rewrite loadScene_run by assumption.
    pose proof (ensure_initialized_registry_kept (guarded st)) as K1.
    pose proof (ensure_initialized_quiet w (guarded st)) as [_ _ Hf _ _ _ _ _].
    destruct (ensure_initialized w (guarded st)) as [[[]|e] st1];
      cbn [snd] in K1, Hf |- *; simpl in Hf.
    + pose proof (transition_outcome w name st1 Hf) as (Hs & _).
      eapply registry_kept_trans; [exact Hg |].
      eapply registry_kept_trans; [exact K1 |].
      now apply registry_kept_but_scene.
    + eapply registry_kept_trans; [exact Hg | exact K1].
Qed.

Lemma loadAsset_registry_kept path st :
  registry_kept w ty st (snd (loadAsset w path st)).
Proof.
  unfold loadAsset, bind.
  pose proof (ensure_initialized_registry_kept st) as K1.
  destruct (ensure_initialized w st) as [[[]|e] st1]; cbn [snd] in K1; [| exact K1].
  eapply registry_kept_trans; [exact K1 |].
  unfold await_. destruct (load_via_store w path st1) as [res st2] eqn:E.
  assert (session st2 = session st1) as Hs.
  { unfold load_via_store, bind, get_game, AssetStore_load, bind, emit, throw, ret in E.
    destruct (assetStore (session st1)) as [store|];
      [destruct (asset_result w store path) |]; injection E as _ <-; reflexivity. }
  apply registry_kept_same; simpl; now rewrite Hs.
Qed.

Lemma play_registry_kept st : registry_kept w ty st (snd (play w st)).
Proof.
  rewrite play_run.
  pose proof (ensure_initialized_registry_kept st) as K1.
  destruct (ensure_initialized w st) as [[[]|e] st1]; cbn [snd] in K1; [| exact K1].
  assert (K2 : registry_kept w ty st1 (snd (start_initial_scene w st1))).
  { unfold start_initial_scene, bind, get_game.
    destruct (scene (session st1)); [apply registry_kept_refl |].
    destruct (gameJSONAsset (session st1)) as [a|]; [| apply registry_kept_refl].
    destruct (initial_scene_choice (manifest_of (data a))) as [n|];
      [| apply registry_kept_refl].
    unfold await_.
    pose proof (loadScene_registry_kept (VString n) st1) as K.
    destruct (loadScene w (VString n) st1) as [res st2]. exact K. }
  destruct (start_initial_scene w st1) as [[[]|e] st2]; cbn [snd] in K2.
  - eapply registry_kept_trans; [exact K1 |].
    eapply registry_kept_trans; [exact K2 |].
    rewrite start_render_loop_run.
    destruct (renderer (session st2)); [| apply registry_kept_refl].
    now apply registry_kept_same.
  - eapply registry_kept_trans; [exact K1 | exact K2].
Qed.

Lemma pause_registry_kept st : registry_kept w ty st (snd (pause st)).
Proof.
  unfold pause, bind, get_game.
  destruct (renderer (session st)); [| apply registry_kept_refl].
  now apply registry_kept_same.
Qed.

End RegistryKept.

Lemma run_call_registry_kept w c ty st :
  (forall types, c <> CallRegister types) ->
  registry_kept w ty st (run_call (w, c) st).
Proof.
  intros Hc. destruct c as [| types | v | p | |]; simpl.
  - apply init_registry_kept.
  - now destruct (Hc types).
  - apply loadScene_registry_kept.
  - apply loadAsset_registry_kept.
  - apply play_registry_kept.
  - apply pause_registry_kept.
Qed.

Lemma Game_constructor_registries arg options g :
  Game_constructor arg options = Ok g ->
  gameObjectTypes g = empty_object /\ gameObjectClasses g = empty_object.
Proof.
  intros H. destruct arg; simpl in H; try discriminate; injection H as <-;
    split; reflexivity.
Qed.

(** C9, where the code departs from the specification. On a session as the
    constructor leaves it, with no class registered and no type loaded, a
    lookup under a name that objects inherit from [Object.prototype]
    ([constructor], [toString], ...) finds the inherited member:
    [getGameObjectClass] returns it instead of [null], and
    [getGameObjectTypeJSON] returns it instead of no descriptor. *)
Theorem registry_lookup_inherited_name
    (w : World) (arg : JSValue) (options : option GameOptions) (g : Game)
    (type : string) :
  Game_constructor arg options = Ok g ->
  inherited type = true ->
  getGameObjectClass w g type = VBuiltin type /\
  getGameObjectClass w g type <> VNull /\
  getGameObjectTypeJSON g type = Builtin (VBuiltin type).
Proof.
  intros Hg Hin.
  apply Game_constructor_registries in Hg as [Htypes Hclasses].
  unfold getGameObjectClass, class_member, getGameObjectTypeJSON.
  rewrite Htypes, Hclasses. unfold js_get. simpl.
  rewrite !lookup_empty, Hin. simpl. repeat split. discriminate.
Qed.

Lemma registry_lookup_inherited_name_witness :
  Game_constructor (VString "http://host/game/") None = Ok Demo.fresh_game /\
  inherited "constructor" = true /\
  getGameObjectClass Demo.world Demo.fresh_game "constructor"
  = VBuiltin "constructor" /\
  getGameObjectTypeJSON Demo.fresh_game "constructor"
  = Builtin (VBuiltin "constructor").
Proof.
  split; [vm_compute; reflexivity |]. split; [reflexivity |].
  destruct (registry_lookup_inherited_name
              Demo.world (VString "http://host/game/") None Demo.fresh_game
              "constructor" ltac:(vm_compute; reflexivity) ltac:(reflexivity))
    as (Hclass & _ & Htype).
  split; assumption.
Defined.

(** ** play (C7) *)

Section PlayFacts.
Variable w : World.

Lemma loadScene_ready_frame (v : JSValue) st :
  initialized (session st) = true ->
  same_but_scene (session st) (session (snd (loadScene w v st))).
Proof.
  intros Hi. destruct (loadingScene (session st)) eqn:Hflag.
  - rewrite loadScene_guard by assumption. apply same_but_scene_refl.
  - destruct v as [| | b | n | name | h | id | member];
      try (rewrite loadScene_not_string by (assumption || discriminate);
           apply same_but_scene_set_flag).
    rewrite loadScene_ready_run by assumption.
    pose proof (transition_outcome w name (guarded st) eq_refl) as (Hs & _).
    eapply same_but_scene_trans; [apply same_but_scene_set_flag | exact Hs].
Qed.

End PlayFacts.





(** In the demo world [play] on a fresh session loads [main], the first
    declared scene, and starts the render loop last. *)
Example play_demo :
  let st' := snd (play Demo.world Demo.fresh) in
  fst (play Demo.world Demo.fresh) = Ok tt /\
  scene (session st') = Some 0 /\
  scene_store st' !! 0 = Some (loaded_scene "main.json" Demo.box_tree) /\
  (playing <$> renderer (session st')) = Some true /\
  hd_error (trace st') = Some EvRendererPlay.
Proof. vm_compute. repeat split. Qed.

(** A failed load leaves the scene that failed to load in the slot, with
    the guard still up. *)
Example failed_load_demo :
  let st' := snd (loadScene Demo.broken_world (VString "main") Demo.fresh) in
  fst (loadScene Demo.broken_world (VString "main") Demo.fresh)
  = Throw (SceneLoadError "main.json") /\
  scene (session st') = Some 0 /\
  scene_store st' !! 0 = Some (new_scene "main.json") /\
  loadingScene (session st') = true.
Proof. vm_compute. repeat split. Qed.

(** Each way in which [loadScene] can throw past its guard leaves the
    guard flag up: a name that is not a string, a failed initialisation,
    an unknown scene name, a failed load of the new scene. *)
Example guard_left_up_demo :
  let ends (w : World) (v : JSValue) :=
    (fst (loadScene w v Demo.fresh),
     loadingScene (session (snd (loadScene w v Demo.fresh)))) in
  ends Demo.world (VNumber 42) = (Throw InvalidSceneName, true) /\
  ends Demo.offline_world (VString "main") = (Throw (AssetError "game.json"), true) /\
  ends Demo.world (VString "missing") = (Throw (UnknownScene "missing"), true) /\
  ends Demo.broken_world (VString "main") = (Throw (SceneLoadError "main.json"), true).
Proof. vm_compute. repeat split. Qed.

(** * Further properties of the session *)

(** ** Initialisation: outcome, repetition, retry *)

Lemma init_result w st :
  initialized (session st) = false ->
  fst (_init w st) = init_verdict w (store_of (session st)).
Proof.
  intros Hi. rewrite init_run by assumption. unfold init_verdict.
  destruct (asset_result w (store_of (session st)) "game.json") as [a|e];
    [| reflexivity].
  pose proof (loop_result w (store_of (session st))
                (own_property_order
                   (default [] (gameObjectTypes_json (manifest_of (data a)))))
                (manifest_loaded st a) eq_refl) as L.
  unfold for_in.
  destruct (for_each _ (register_type w) (manifest_loaded st a)) as [[[]|e] st1];
    cbn [fst] in L.
  - destruct (first_failure w (store_of (session st)) _); [discriminate |].
    rewrite finish_init_run.
    destruct (renderer_ok w); [destruct (input_ok w) |]; reflexivity.
  - destruct (first_failure w (store_of (session st)) _) as [e0|];
      [| discriminate].
    injection L as ->. reflexivity.
Qed.

Lemma init_keeps_base w st :
  store_of (session (snd (_init w st))) = store_of (session st).
Proof.
  pose proof (init_quiet w st) as [_ _ _ _ Hb Hh _ _].
  unfold store_of. now rewrite Hb, Hh.
Qed.

(** X1. The result of [_init] on an uninitialized session is decided by
    the world and the base location alone: it is the first failure among
    the manifest load, the loads of the declared type descriptors in the
    order in which [for ... in] visits them, the Renderer constructor and
    the InputManager constructor, and success when none fails;
    [initialized] is set exactly in the case of success. *)
Theorem init_result_is_first_failure (w : World) (st : State) :
  initialized (session st) = false ->
  fst (_init w st) = init_verdict w (store_of (session st)) /\
  initialized (session (snd (_init w st)))
  = is_ok (init_verdict w (store_of (session st))).
Proof.
  intros Hi. pose proof (init_outcome w st Hi) as O.
  rewrite init_result in * by assumption.
  split; [reflexivity |].
  destruct (init_verdict w (store_of (session st))) as [[]|e]; [apply O | exact O].
Qed.

Lemma init_result_is_first_failure_witness :
  initialized (session Demo.fresh) = false /\
  fst (_init Demo.offline_world Demo.fresh) = Throw (AssetError "game.json").
Proof.
  split; [reflexivity |].
  rewrite (proj1 (init_result_is_first_failure Demo.offline_world Demo.fresh eq_refl)).
  reflexivity.
Defined.

(** X2. Once [_init] has succeeded, calling [_init] again, in whatever
    world, throws AlreadyInitialized and leaves the machine state exactly
    as it was: nothing is requested or constructed a second time. *)
Theorem init_twice_rejected (w w' : World) (st : State) :
  initialized (session st) = false ->
  fst (_init w st) = Ok tt ->
  _init w' (snd (_init w st)) = (Throw AlreadyInitialized, snd (_init w st)).
Proof.
  intros Hi Hok. pose proof (init_outcome w st Hi) as O. rewrite Hok in O.
  destruct O as (Hinit & _).
  unfold _init at 1, bind, get_game. now rewrite Hinit.
Qed.

Lemma init_twice_rejected_witness :
  initialized (session Demo.fresh) = false /\
  fst (_init Demo.world Demo.fresh) = Ok tt /\
  fst (_init Demo.broken_world (snd (_init Demo.world Demo.fresh)))
  = Throw AlreadyInitialized.
Proof.
  split; [reflexivity |]. split; [vm_compute; reflexivity |].
  now rewrite (init_twice_rejected Demo.world Demo.broken_world Demo.fresh
                 eq_refl ltac:(vm_compute; reflexivity)).
Defined.

(** X3. A failed [_init] leaves the session uninitialized and able to try
    again: a later [_init] is not rejected, and what it comes to is what a
    first attempt in the world of the retry would come to. *)
Theorem init_retry_after_failure (w1 w2 : World) (st : State) (e : Error) :
  initialized (session st) = false ->
  fst (_init w1 st) = Throw e ->
  initialized (session (snd (_init w1 st))) = false /\
  fst (_init w2 (snd (_init w1 st))) = fst (_init w2 st).
Proof.
  intros Hi Hfail. pose proof (init_outcome w1 st Hi) as O. rewrite Hfail in O.
  split; [exact O |].
  rewrite !init_result by assumption. now rewrite init_keeps_base.
Qed.

Lemma init_retry_after_failure_witness :
  initialized (session Demo.fresh) = false /\
  fst (_init Demo.offline_world Demo.fresh) = Throw (AssetError "game.json") /\
  fst (_init Demo.world (snd (_init Demo.offline_world Demo.fresh))) = Ok tt.
Proof.
  split; [reflexivity |]. split; [vm_compute; reflexivity |].
  destruct (init_retry_after_failure Demo.offline_world Demo.world Demo.fresh
              (AssetError "game.json") eq_refl ltac:(vm_compute; reflexivity))
    as [_ H].
  rewrite H. vm_compute. reflexivity.
Defined.

(** ** The asset store of a session *)

Lemma init_sets_store w st :
  initialized (session st) = false ->
  assetStore (session (snd (_init w st))) = Some (store_of (session st)).
Proof.
  intros Hi. rewrite init_run by assumption.
  destruct (asset_result w (store_of (session st)) "game.json") as [a|e];
    [| reflexivity].
  pose proof (for_in_frame w
    (default [] (gameObjectTypes_json (manifest_of (data a))))
    (manifest_loaded st a) (store_of (session st)) eq_refl)
    as (_ & _ & _ & _ & _ & Fs).
  destruct (for_in _ (register_type w) (manifest_loaded st a)) as [[[]|e] st1];
    cbn [snd] in Fs |- *; [| exact Fs].
  rewrite finish_init_run.
  destruct (renderer_ok w); [destruct (input_ok w) |]; exact Fs.
Qed.

(** X4. The asset store that [_init] creates for a session sits over
    [baseURL || dirHandle]: over the directory handle the constructor was
    given, or over the base URL it stored; when the constructor was given
    the empty string or a lone slash the stored base URL is empty, hence
    falsy, and the store is created over [null]. *)
Theorem init_store_base
    (arg : JSValue) (options : option GameOptions) (g : Game) (w : World) :
  Game_constructor arg options = Ok g ->
  assetStore (session (snd (_init w (launched g)))) =
  Some {| store_base :=
            match arg with
            | VString s =>
                if String.eqb s "" || String.eqb s "/" then VNull
                else value_of_string (baseURL g)
            | VDirHandle h => VDirHandle h
            | _ => VNull
            end |}.
Proof.
  intros Hg.
  assert (Hi : initialized (session (launched g)) = false).
  { destruct arg; simpl in Hg; try discriminate; injection Hg as <-; reflexivity. }
  rewrite init_sets_store by assumption. f_equal. unfold store_of. f_equal.
  destruct arg as [| | b | n | s | h | id | member]; simpl in Hg; try discriminate;
    injection Hg as <-; [| reflexivity].
  cbn [launched session baseURL dirHandle value_of_string value_of_handle].
  unfold js_or, truthy.
  destruct (String.eqb s "") eqn:E0.
  - apply String.eqb_eq in E0. subst s. reflexivity.
  - destruct (String.eqb s "/") eqn:E1.
    + apply String.eqb_eq in E1. subst s. reflexivity.
    + cbn [orb]. destruct (endsWith s "/") eqn:Ee.
      * destruct (String.eqb (slice s 0 (String.length s - 1)) "") eqn:Eb;
          [| reflexivity].
        apply String.eqb_eq in Eb. apply endsWith_slash_split in Ee.
        rewrite Eb in Ee. simpl in Ee. subst s. discriminate E1.
      * now rewrite E0.
Qed.

Lemma init_store_base_witness :
  Game_constructor (VString "/") None
  = Ok (session (launched
          match Game_constructor (VString "/") None with
          | Ok g => g
          | Throw _ => Demo.fresh_game
          end)) /\
  assetStore (session (snd (_init Demo.world
    (launched match Game_constructor (VString "/") None with
              | Ok g => g
              | Throw _ => Demo.fresh_game
              end))))
  = Some {| store_base := VNull |}.
Proof.
  split; [reflexivity |].
  exact (init_store_base (VString "/") None _ Demo.world eq_refl).
Defined.

(** ** loadAsset *)

Lemma load_via_store_session w path st :
  session (snd (await_ (load_via_store w path) st)) = session st /\
  scene_store (snd (await_ (load_via_store w path) st)) = scene_store st.
Proof.
  destruct (assetStore (session st)) as [store|] eqn:H.
  - rewrite (load_via_store_run w st path store H). split; reflexivity.
  - unfold await_, load_via_store, bind, get_game, throw. rewrite H.
    split; reflexivity.
Qed.

(** X5. On an initialized session [loadAsset(path)] settles with whatever
    the session's asset store yields for the path, whether or not a scene
    load is in progress: the guard flag is not consulted. The session
    object and the scene store are left as they were, and exactly one
    request, for [path], is issued. *)
Theorem loadAsset_ready (w : World) (path : string) (st : State) (store : AssetStore) :
  initialized (session st) = true ->
  assetStore (session st) = Some store ->
  loadAsset w path st =
  (asset_result w store path,
   {| session := session st;
      scene_store := scene_store st;
      trace := EvSuspend (session st) (scene_store st)
                 :: EvAssetLoad path :: trace st |}).
Proof.
  intros Hi Hs. unfold loadAsset, bind.
  rewrite ensure_initialized_ready by assumption.
  now apply load_via_store_run.
Qed.

Lemma loadAsset_ready_witness :
  initialized (session (guarded Demo.with_main)) = true /\
  loadingScene (session (guarded Demo.with_main)) = true /\
  fst (loadAsset Demo.world "box.json" (guarded Demo.with_main))
  = Ok {| asset_path := "box.json"; data := DescriptorData "box.json" |}.
Proof.
  split; [vm_compute; reflexivity |]. split; [reflexivity |].
  rewrite (loadAsset_ready Demo.world "box.json" (guarded Demo.with_main)
             {| store_base := VString "http://host/game" |}
             ltac:(vm_compute; reflexivity) ltac:(vm_compute; reflexivity)).
  reflexivity.
Defined.

(** X6. On an uninitialized session [loadAsset(path)] initializes first.
    When initialisation fails its error is re-thrown and [path] is never
    requested; when it succeeds the call settles with what the store
    created by [_init] yields for [path], the request for [path] coming
    after all those of the initialisation, and the session is left as
    [_init] left it. *)
Theorem loadAsset_initializes_first (w : World) (path : string) (st : State) :
  initialized (session st) = false ->
  let st1 := snd (_init w st) in
  let st' := snd (loadAsset w path st) in
  match fst (_init w st) with
  | Throw e =>
      fst (loadAsset w path st) = Throw e /\
      asset_requests (trace st') = asset_requests (trace st1) /\
      initialized (session st') = false
  | Ok _ =>
      fst (loadAsset w path st) = asset_result w (store_of (session st)) path /\
      asset_requests (trace st') = asset_requests (trace st1) ++ [path] /\
      session st' = session st1 /\
      initialized (session st') = true
  end.
Proof.
  intros Hi st1 st'. subst st1 st'.
  unfold loadAsset, bind. rewrite ensure_initialized_fresh by assumption.
  pose proof (init_outcome w st Hi) as O.
  pose proof (init_sets_store w st Hi) as Hs.
  destruct (_init w st) as [[[]|e] st1]; cbn [fst snd] in O, Hs |- *.
  - assert (Hs' : assetStore (session (suspended st1)) = Some (store_of (session st)))
      by exact Hs.
    rewrite (load_via_store_run w (suspended st1) path _ Hs').
    cbn [fst snd trace session suspended].
    rewrite !asset_requests_cons. cbn [app]. rewrite !app_nil_r.
    repeat split. apply O.
  - cbn [trace suspended]. rewrite asset_requests_cons, app_nil_r.
    repeat split. exact O.
Qed.

Lemma loadAsset_initializes_first_witness :
  initialized (session Demo.fresh) = false /\
  fst (loadAsset Demo.world "box.json" Demo.fresh)
  = Ok {| asset_path := "box.json"; data := DescriptorData "box.json" |} /\
  asset_requests (trace (snd (loadAsset Demo.world "box.json" Demo.fresh)))
  = ["game.json"; "box.json"; "ball.json"; "box.json"].
Proof.
  split; [reflexivity |].
  pose proof (loadAsset_initializes_first Demo.world "box.json" Demo.fresh eq_refl) as H.
  cbv zeta in H.
  assert (E : fst (_init Demo.world Demo.fresh) = Ok tt) by (vm_compute; reflexivity).
  rewrite E in H. destruct H as (Hr & Hq & _).
  split; [rewrite Hr; reflexivity |].
  rewrite Hq. vm_compute. reflexivity.
Defined.

(** X7. Whatever their outcome, [_init] and [loadAsset] leave the scene
    slot, the guard flag, the scene store, the class registry, the base
    location and the options as they found them, add only asset requests,
    collaborator constructions and suspensions to the trace, and are only
    ever parked in states showing that same slot, flag and store. *)
Theorem init_and_loadAsset_are_quiet (w : World) (path : string) (st : State) :
  quiet st (snd (_init w st)) /\ quiet st (snd (loadAsset w path st)).
Proof. split; [apply init_quiet | apply loadAsset_quiet]. Qed.

(** ** The registries *)

Lemma prop_lookup_value_Some k v types :
  prop_lookup_value k types = Some v -> (k, v) ∈ types.
Proof.
  induction types as [|[k0 v0] types IH]; simpl; [discriminate |].
  destruct (String.eqb k0 k) eqn:E.
  - apply String.eqb_eq in E. subst k0. intros H. injection H as ->.
    apply list_elem_of_here.
  - intros H. apply list_elem_of_further. now apply IH.
Qed.

Lemma prop_lookup_value_None k types :
  prop_lookup_value k types = None -> k ∉ map fst types.
Proof.
  induction types as [|[k0 v0] types IH]; simpl.
  - intros _ H. inversion H.
  - destruct (String.eqb k0 k) eqn:E; [discriminate |].
    apply String.eqb_neq in E. intros H. apply not_elem_of_cons.
    split; [congruence | now apply IH].
Qed.

Lemma register_fold_get_in props : forall g k v,
  NoDup (map fst props) ->
  "__proto__" ∉ map fst props ->
  (k, v) ∈ props ->
  js_get k
    (gameObjectClasses
       (fold_left (fun g kv =>
                     set_gameObjectClasses
                       (js_set value_kind (fst kv) (snd kv) (gameObjectClasses g)) g)
                  props g))
  = Own v.
Proof.
  induction props as [|[k0 v0] props IH]; intros g k v Hnd Hproto Hin.
  - inversion Hin.
  - simpl in Hnd, Hproto. apply NoDup_cons in Hnd as [Hk0 Hnd].
    apply not_elem_of_cons in Hproto as [Hne Hproto].
    apply elem_of_cons in Hin as [Heq | Hin].
    + injection Heq as -> ->. simpl.
      rewrite register_fold_get_other by assumption.
      simpl. apply js_get_set_eq. congruence.
    + simpl. now apply IH.
Qed.

Lemma registerGameObjectClasses_get_in types g k v :
  NoDup (map fst types) ->
  "__proto__" ∉ map fst types ->
  (k, v) ∈ types ->
  js_get k (gameObjectClasses (registerGameObjectClasses types g)) = Own v.
Proof.
  intros Hnd Hproto Hin. unfold registerGameObjectClasses.
  apply register_fold_get_in.
  - now rewrite own_property_order_keys.
  - now rewrite own_property_order_keys.
  - now apply own_property_order_elem.
Qed.

(** X8. What [registerGameObjectClasses] stores, [getGameObjectClass]
    reads back, for an argument whose property names are distinct and do
    not include [__proto__], on a registry whose prototype is still
    [Object.prototype]: a type registered with a truthy value reads as
    that value, whatever was registered for it before; a type registered
    with a falsy value (undefined, null, false, 0, the empty string) reads
    as [null]; types not in the argument read as before. *)
Theorem register_then_get
    (w : World) (types : list (string * JSValue)) (g : Game) :
  NoDup (map fst types) ->
  "__proto__" ∉ map fst types ->
  plain (gameObjectClasses g) ->
  forall k,
    match prop_lookup_value k types with
    | Some v =>
        getGameObjectClass w (registerGameObjectClasses types g) k
        = if truthy v then v else VNull
    | None =>
        getGameObjectClass w (registerGameObjectClasses types g) k
        = getGameObjectClass w g k
    end.
Proof.
  intros Hnd Hproto _ k.
  destruct (prop_lookup_value k types) as [v|] eqn:E.
  - apply prop_lookup_value_Some in E.
    unfold getGameObjectClass, class_member.
    now rewrite (registerGameObjectClasses_get_in types g k v Hnd Hproto E).
  - apply prop_lookup_value_None in E.
    unfold getGameObjectClass, class_member.
    now rewrite registerGameObjectClasses_get_other.
Qed.

Lemma register_then_get_witness :
  let types := [("Box", VObject 1); ("Ghost", VNull)] in
  let g := registerGameObjectClasses [("Box", VObject 7); ("Ghost", VObject 8)]
             Demo.fresh_game in
  NoDup (map fst types) /\
  ("__proto__" ∉ map fst types) /\
  plain (gameObjectClasses g) /\
  getGameObjectClass Demo.world (registerGameObjectClasses types g) "Box"
  = VObject 1 /\
  getGameObjectClass Demo.world (registerGameObjectClasses types g) "Ghost"
  = VNull.
Proof.
  cbv zeta.
  assert (Hnd : NoDup (map fst [("Box", VObject 1); ("Ghost", VNull)]))
    by (apply (bool_decide_unpack _); vm_compute; exact I).
  assert (Hp : "__proto__" ∉ map fst [("Box", VObject 1); ("Ghost", VNull)])
    by (apply (bool_decide_unpack _); vm_compute; exact I).
  assert (Hg : plain (gameObjectClasses
                        (registerGameObjectClasses
                           [("Box", VObject 7); ("Ghost", VObject 8)]
                           Demo.fresh_game)))
    by (vm_compute; reflexivity).
  split; [exact Hnd |]. split; [exact Hp |]. split; [exact Hg |].
  split.
  - exact (register_then_get Demo.world
             [("Box", VObject 1); ("Ghost", VNull)] _ Hnd Hp Hg "Box").
  - exact (register_then_get Demo.world
             [("Box", VObject 1); ("Ghost", VNull)] _ Hnd Hp Hg "Ghost").
Defined.

(** X19. Take a session from its constructor through any sequence of
    calls, made one after the other. For a type name that objects do not
    inherit from [Object.prototype], [getGameObjectClass] returns [null]
    as long as neither that name nor [__proto__] was among the names
    passed to [registerGameObjectClasses], and [getGameObjectTypeJSON]
    finds nothing as long as no manifest served to the session declares
    a type of that name or one named [__proto__]. *)
Theorem unregistered_name_reads_null
    (arg : JSValue) (options : option GameOptions) (g : Game)
    (calls : list (World * Call)) (type : string) :
  Game_constructor arg options = Ok g ->
  inherited type = false ->
  let g' := session (run_calls calls (launched g)) in
  ((forall w types, (w, CallRegister types) ∈ calls ->
      (type ∉ map fst types) /\ ("__proto__" ∉ map fst types)) ->
   forall w, getGameObjectClass w g' type = VNull) /\
  ((forall w c, (w, c) ∈ calls ->
      undeclared w type g /\ undeclared w "__proto__" g) ->
   getGameObjectTypeJSON g' type = Missing).
Proof.
  intros Hg Hin g'. subst g'.
  apply Game_constructor_registries in Hg as [Htypes Hclasses].
  split.
  - intros Hreg w0.
    assert (H : js_get type (gameObjectClasses (session (run_calls calls (launched g))))
                = Missing).
    { apply (run_calls_invariant
               (fun st => js_get type (gameObjectClasses (session st)) = Missing)).
      - intros [w c] st Hc Hst.
        destruct c as [| types | v | p | |];
          try (match goal with
               | |- context [run_call (w, ?c) st] =>
                   destruct (run_call_registry_kept w c type st
                               ltac:(intros; discriminate)) as (-> & _)
               end; exact Hst).
        cbn [run_call session].
        destruct (Hreg w types Hc) as [Hty Hproto].
        rewrite registerGameObjectClasses_get_other by assumption. exact Hst.
      - simpl. rewrite Hclasses. unfold js_get. simpl.
        now rewrite lookup_empty, Hin. }
    unfold getGameObjectClass, class_member. now rewrite H.
  - intros Hund.
    assert (H : baseURL (session (run_calls calls (launched g))) = baseURL g /\
                dirHandle (session (run_calls calls (launched g))) = dirHandle g /\
                js_get type (gameObjectTypes (session (run_calls calls (launched g))))
                = Missing).
    { apply (run_calls_invariant
               (fun st => baseURL (session st) = baseURL g /\
                          dirHandle (session st) = dirHandle g /\
                          js_get type (gameObjectTypes (session st)) = Missing)).
      - intros [w c] st Hc (Hb & Hh & Ht).
        destruct (Hund _ _ Hc) as [Hu Hp].
        destruct c as [| types | v | p | |];
          try (match goal with
               | |- context [run_call (w, ?c) st] =>
                   destruct (run_call_registry_kept w c type st
                               ltac:(intros; discriminate)) as (_ & Hb' & Hh' & Ht')
               end;
               rewrite Hb', Hh', Ht';
               [repeat split; assumption | |];
               unfold undeclared, store_of in *; now rewrite Hb, Hh).
        cbn [run_call session].
        pose proof (registerGameObjectClasses_other_fields types (session st))
          as (_ & _ & _ & Ht' & _ & _ & Hb' & Hh' & _).
        now rewrite Ht', Hb', Hh'.
      - simpl. rewrite Htypes. unfold js_get. simpl.
        rewrite lookup_empty, Hin. repeat split. }
    unfold getGameObjectTypeJSON. apply H.
Qed.

Lemma unregistered_name_reads_null_witness :
  let calls := [(Demo.world, CallRegister [("Box", VObject 1)]);
                (Demo.world, CallPlay)] in
  let g' := session (run_calls calls (launched Demo.fresh_game)) in
  Game_constructor (VString "http://host/game/") None = Ok Demo.fresh_game /\
  inherited "Ghost" = false /\
  getGameObjectClass Demo.world g' "Ghost" = VNull /\
  getGameObjectTypeJSON g' "Ghost" = Missing /\
  getGameObjectClass Demo.world g' "Box" = VObject 1.
Proof.
  cbv zeta.
  split; [vm_compute; reflexivity |]. split; [vm_compute; reflexivity |].
  destruct (unregistered_name_reads_null
              (VString "http://host/game/") None Demo.fresh_game
              [(Demo.world, CallRegister [("Box", VObject 1)]);
               (Demo.world, CallPlay)]
              "Ghost" ltac:(vm_compute; reflexivity) ltac:(vm_compute; reflexivity))
    as [Hclass Htype].
  split; [| split].
  - apply Hclass. intros w types Hc.
    apply elem_of_cons in Hc as [Heq | Hc].
    + injection Heq as _ ->.
      split; apply (bool_decide_unpack _); vm_compute; exact I.
    + apply elem_of_cons in Hc as [Heq | Hc]; [discriminate | inversion Hc].
  - apply Htype. intros w c Hc.
    assert (w = Demo.world) as ->.
    { apply elem_of_cons in Hc as [Heq | Hc]; [now injection Heq |].
      apply elem_of_cons in Hc as [Heq | Hc]; [now injection Heq | inversion Hc]. }
    split; intros a Ha; vm_compute in Ha; injection Ha as <-;
      apply (bool_decide_unpack _); vm_compute; exact I.
  - vm_compute. reflexivity.
Defined.

(** X9. The class registry is written by [registerGameObjectClasses] and
    by nothing else: across any sequence of other calls ([_init],
    [loadScene], [loadAsset], [play], [pause]), made in any worlds and
    whatever their outcomes, it stays as it was. *)
Theorem class_registry_written_by_register_only
    (calls : list (World * Call)) (st : State) :
  (forall w types, (w, CallRegister types) ∉ calls) ->
  gameObjectClasses (session (run_calls calls st)) = gameObjectClasses (session st).
Proof.
  intros Hno.
  apply (run_calls_invariant
           (fun st' => gameObjectClasses (session st')
                       = gameObjectClasses (session st))); [| reflexivity].
  intros [w c] st' Hin Hst'.
  destruct (run_call_registry_kept w c "" st') as (Hk & _).
  - intros types ->. exact (Hno w types Hin).
  - now rewrite Hk.
Qed.

Lemma class_registry_written_by_register_only_witness :
  (forall w types,
     (w, CallRegister types)
     ∉ [(Demo.world, CallPlay); (Demo.world, CallLoadScene (VString "menu"))]) /\
  gameObjectClasses
    (session (run_calls [(Demo.world, CallPlay);
                         (Demo.world, CallLoadScene (VString "menu"))]
                        (launched (registerGameObjectClasses [("Box", VObject 1)]
                                     Demo.fresh_game))))
  = gameObjectClasses (registerGameObjectClasses [("Box", VObject 1)]
                         Demo.fresh_game).
Proof.
  assert (Hno : forall w types,
             (w, CallRegister types)
             ∉ [(Demo.world, CallPlay); (Demo.world, CallLoadScene (VString "menu"))]).
  { intros w types Hin.
    apply elem_of_cons in Hin as [Heq | Hin]; [discriminate |].
    apply elem_of_cons in Hin as [Heq | Hin]; [discriminate | inversion Hin]. }
  split; [exact Hno |].
  rewrite (class_registry_written_by_register_only _ _ Hno).
  reflexivity.
Defined.

(** ** After initialisation *)

Lemma same_manifest_refl g : same_manifest g g.
Proof. repeat split. Qed.

Lemma same_manifest_trans a b c :
  same_manifest a b -> same_manifest b c -> same_manifest a c.
Proof.
  intros (i1 & j1 & t1 & s1 & b1 & h1) (i2 & j2 & t2 & s2 & b2 & h2).
  repeat split; congruence.
Qed.

Lemma same_manifest_but_scene g g' : same_but_scene g g' -> same_manifest g g'.
Proof.
  intros H. apply same_but_scene_fields in H
    as (_ & Hi & Hb & Hh & Hj & _ & Hs & _ & Ht & _).
  repeat split; assumption.
Qed.

Lemma start_initial_scene_same_manifest w st :
  initialized (session st) = true ->
  same_manifest (session st) (session (snd (start_initial_scene w st))).
Proof.
  intros Hi. unfold start_initial_scene, bind, get_game.
  destruct (scene (session st)); [apply same_manifest_refl |].
  destruct (gameJSONAsset (session st)) as [a|]; [| apply same_manifest_refl].
  destruct (initial_scene_choice (manifest_of (data a))) as [n|];
    [| apply same_manifest_refl].
  unfold await_.
  pose proof (loadScene_ready_frame w (VString n) st Hi) as F.
  destruct (loadScene w (VString n) st) as [res st1]. cbn [snd] in F |- *.
  now apply same_manifest_but_scene.
Qed.

Lemma run_call_same_manifest wc st :
  initialized (session st) = true ->
  same_manifest (session st) (session (run_call wc st)).
Proof.
  intros Hi. destruct wc as [w [| types | v | p | |]]; cbn [run_call].
  - unfold _init, bind, get_game. rewrite Hi. apply same_manifest_refl.
  - pose proof (registerGameObjectClasses_other_fields types (session st))
      as (Hi' & _ & _ & Ht & Hj & _ & Hb & Hh & Hs).
    repeat split; assumption.
  - apply same_manifest_but_scene. now apply loadScene_ready_frame.
  - unfold loadAsset, bind. rewrite ensure_initialized_ready by assumption.
    destruct (load_via_store_session w p st) as [-> _]. apply same_manifest_refl.
  - rewrite play_run, ensure_initialized_ready by assumption.
    pose proof (start_initial_scene_same_manifest w st Hi) as F.
    destruct (start_initial_scene w st) as [[[]|e] st1]; cbn [snd] in F |- *;
      [| exact F].
    eapply same_manifest_trans; [exact F |].
    rewrite start_render_loop_run.
    destruct (renderer (session st1)); repeat split.
  - unfold pause, bind, get_game.
    destruct (renderer (session st)); repeat split.
Qed.

(** X10. Once a session is initialized and no call is in flight, it stays
    initialized, and its manifest, its type registry, its asset store and
    its base location are not written again by calls made one after the
    other, each settled before the next is made: across any such sequence
    of calls, in any worlds and whatever their outcomes, they are as they
    were. *)
Theorem manifest_frozen_after_init (calls : list (World * Call)) (st : State) :
  initialized (session st) = true ->
  initialized (session (run_calls calls st)) = true /\
  gameJSONAsset (session (run_calls calls st)) = gameJSONAsset (session st) /\
  gameObjectTypes (session (run_calls calls st)) = gameObjectTypes (session st) /\
  assetStore (session (run_calls calls st)) = assetStore (session st) /\
  baseURL (session (run_calls calls st)) = baseURL (session st) /\
  dirHandle (session (run_calls calls st)) = dirHandle (session st).
Proof.
  intros Hi.
  assert (H : same_manifest (session st) (session (run_calls calls st))).
  { apply (run_calls_invariant
             (fun st' => same_manifest (session st) (session st')));
      [| apply same_manifest_refl].
    intros wc st' _ Hst'.
    eapply same_manifest_trans; [exact Hst' |].
    apply run_call_same_manifest.
    destruct Hst' as (-> & _). exact Hi. }
  destruct H as (H1 & H2 & H3 & H4 & H5 & H6).
  rewrite H1. repeat split; assumption.
Qed.

Lemma manifest_frozen_after_init_witness :
  initialized (session Demo.with_main) = true /\
  gameObjectTypes
    (session (run_calls [(Demo.empty_world, CallInit);
                         (Demo.empty_world, CallLoadScene (VString "menu"));
                         (Demo.offline_world, CallPlay)]
                        Demo.with_main))
  = gameObjectTypes (session Demo.with_main).
Proof.
  assert (Hi : initialized (session Demo.with_main) = true)
    by (vm_compute; reflexivity).
  split; [exact Hi |].
  apply (manifest_frozen_after_init _ _ Hi).
Defined.

(** ** loadScene on an initialized session *)

Lemma load_new_scene_verdict w name st a :
  gameJSONAsset (session st) = Some a ->
  fst (load_new_scene w name st) = scene_verdict w (manifest_of (data a)) name.
Proof.
  intros Ha. unfold scene_verdict.
  destruct (scenes (manifest_of (data a))) as [declared|] eqn:Hd.
  - destruct (truthy (prop_get name declared)) eqn:Hp.
    + rewrite (load_new_scene_run_over w st name a declared Ha Hd Hp).
      now destruct (build_result w (prop_get name declared)).
    + now rewrite (load_new_scene_unknown w st name a declared Ha Hd Hp).
  - unfold load_new_scene, bind, get_game. now rewrite Ha, Hd.
Qed.

(** How [load_new_scene] can leave the machine: as it found it, having
    thrown before a scene was made, or with one more scene, at the end of
    the store and in the slot. *)
Lemma load_new_scene_cases w name st :
  (exists e, load_new_scene w name st = (Throw e, st)) \/
  (exists sc,
     scene_store (snd (load_new_scene w name st)) = scene_store st ++ [sc] /\
     scene (session (snd (load_new_scene w name st)))
     = Some (length (scene_store st)) /\
     same_but_scene (session st) (session (snd (load_new_scene w name st)))).
Proof.
  destruct (gameJSONAsset (session st)) as [a|] eqn:Ha.
  2:{ left. eexists. unfold load_new_scene, bind, get_game. now rewrite Ha. }
  destruct (scenes (manifest_of (data a))) as [declared|] eqn:Hd.
  2:{ left. eexists. unfold load_new_scene, bind, get_game. now rewrite Ha, Hd. }
  destruct (truthy (prop_get name declared)) eqn:Hp.
  2:{ left. eexists. now apply load_new_scene_unknown with a declared. }
  right. rewrite (load_new_scene_run_over w st name a declared Ha Hd Hp).
  destruct (build_result w (prop_get name declared)) as [objs|e];
    cbn [snd session scene_store].
  - exists (loaded_over (prop_get name declared) objs). repeat split.
    eapply same_but_scene_trans;
      [apply same_but_scene_set_scene | apply same_but_scene_set_flag].
  - exists (scene_over (prop_get name declared)). repeat split.
    apply same_but_scene_set_scene.
Qed.

Lemma slot_in_store_lookup st r :
  slot_in_store st -> scene (session st) = Some r ->
  exists s, scene_store st !! r = Some s.
Proof.
  intros Hw Hr. apply lookup_lt_is_Some_2. now apply Hw.
Qed.

(** X11. On an initialized session with the guard down, what
    [loadScene(name)] comes to is decided by the manifest and the world
    alone: a TypeError when the manifest has no [scenes] object,
    UnknownScene when [scenes[name]] is falsy ([name] is declared with an
    empty path, or is neither declared nor the name of a member objects
    inherit from [Object.prototype]), and otherwise what the load of the
    scene constructed over [scenes[name]] comes to: its error when it
    fails, success when it completes. *)
Theorem loadScene_ready_verdict
    (w : World) (name : string) (st : State) (a : JSONAsset) :
  loadingScene (session st) = false ->
  initialized (session st) = true ->
  gameJSONAsset (session st) = Some a ->
  slot_in_store st ->
  fst (loadScene w (VString name) st) = scene_verdict w (manifest_of (data a)) name.
Proof.
  intros Hflag Hi Ha Hslot.
  rewrite loadScene_ready_run by assumption.
  unfold transition, bind. rewrite unload_if_active_run.
  cbn [guarded session scene_store set_loadingScene scene].
  destruct (scene (session st)) as [r|] eqn:Hr.
  - destruct (slot_in_store_lookup st r Hslot Hr) as [s Hs]. rewrite Hs.
    now apply load_new_scene_verdict.
  - now apply load_new_scene_verdict.
Qed.

Lemma loadScene_ready_verdict_witness :
  loadingScene (session Demo.with_main) = false /\
  initialized (session Demo.with_main) = true /\
  slot_in_store Demo.with_main /\
  fst (loadScene Demo.broken_world (VString "main") Demo.with_main)
  = Throw (SceneLoadError "main.json").
Proof.
  assert (Hslot : slot_in_store Demo.with_main).
  { intros r Hr. vm_compute in Hr. injection Hr as <-. vm_compute. lia. }
  split; [vm_compute; reflexivity |]. split; [vm_compute; reflexivity |].
  split; [exact Hslot |].
  rewrite (loadScene_ready_verdict Demo.broken_world "main" Demo.with_main
             {| asset_path := "game.json"; data := ManifestData Demo.manifest |}
             ltac:(vm_compute; reflexivity) ltac:(vm_compute; reflexivity)
             ltac:(vm_compute; reflexivity) Hslot).
  reflexivity.
Defined.

(** X12. When [loadScene(name)] returns on an initialized session, the
    slot holds a scene object made by this call (its address is new), built
    from the path the manifest declares for [name], attached and active,
    holding the game objects its load produced; the guard flag is down
    again, and nothing else of the session has changed. *)
Theorem loadScene_success_state
    (w : World) (name : string) (st : State) (a : JSONAsset)
    (declared : list (string * string)) (path : string)
    (objs : list GameObject) :
  loadingScene (session st) = false ->
  initialized (session st) = true ->
  gameJSONAsset (session st) = Some a ->
  slot_in_store st ->
  scenes (manifest_of (data a)) = Some declared ->
  truthy_string (prop_lookup name declared) = Some path ->
  scene_result w path = Ok objs ->
  let r := length (scene_store st) in
  let st' := snd (loadScene w (VString name) st) in
  fst (loadScene w (VString name) st) = Ok tt /\
  scene (session st') = Some r /\
  scene_store st' !! r = Some (loaded_scene path objs) /\
  length (scene_store st') = S r /\
  loadingScene (session st') = false /\
  same_but_scene (session st) (session st').
Proof.
  intros Hflag Hi Ha Hslot Hd Hp Hload r st'. subst st'.
  rewrite loadScene_ready_run by assumption.
  unfold transition, bind. rewrite unload_if_active_run.
  cbn [guarded session scene_store set_loadingScene scene].
  assert (Hfin : forall st2,
            gameJSONAsset (session st2) = Some a ->
            length (scene_store st2) = r ->
            loadingScene (session st2) = true ->
            same_but_scene (session st) (session st2) ->
            fst (load_new_scene w name st2) = Ok tt /\
            scene (session (snd (load_new_scene w name st2))) = Some r /\
            scene_store (snd (load_new_scene w name st2)) !! r
            = Some (loaded_scene path objs) /\
            length (scene_store (snd (load_new_scene w name st2))) = S r /\
            loadingScene (session (snd (load_new_scene w name st2))) = false /\
            same_but_scene (session st) (session (snd (load_new_scene w name st2)))).
  { intros st2 Ha2 Hlen Hf2 Hs2.
    rewrite (load_new_scene_run w st2 name a declared path Ha2 Hd Hp).
    rewrite Hload, Hlen. cbn [fst snd session scene_store scene set_loadingScene set_scene].
    split; [reflexivity |]. split; [reflexivity |].
    split; [apply list_lookup_middle; now rewrite Hlen |].
    split; [rewrite length_app, Hlen; simpl; lia |].
    split; [reflexivity |].
    eapply same_but_scene_trans; [exact Hs2 |].
    eapply same_but_scene_trans;
      [apply same_but_scene_set_scene | apply same_but_scene_set_flag]. }
  destruct (scene (session st)) as [r0|] eqn:Hr.
  - destruct (slot_in_store_lookup st r0 Hslot Hr) as [s Hs]. rewrite Hs.
    apply Hfin; cbn [session scene_store].
    + exact Ha.
    + apply length_insert.
    + reflexivity.
    + eapply same_but_scene_trans;
        [apply same_but_scene_set_flag | apply same_but_scene_set_scene].
  - apply Hfin; cbn [session scene_store].
    + exact Ha.
    + reflexivity.
    + reflexivity.
    + apply same_but_scene_set_flag.
Qed.

Lemma loadScene_success_state_witness :
  loadingScene (session Demo.with_main) = false /\
  initialized (session Demo.with_main) = true /\
  slot_in_store Demo.with_main /\
  fst (loadScene Demo.world (VString "menu") Demo.with_main) = Ok tt /\
  scene (session (snd (loadScene Demo.world (VString "menu") Demo.with_main)))
  = Some 1 /\
  scene_store (snd (loadScene Demo.world (VString "menu") Demo.with_main)) !! 1
  = Some (loaded_scene "menu.json" [GameObjectNode "Title" []]).
Proof.
  assert (Hslot : slot_in_store Demo.with_main).
  { intros r Hr. vm_compute in Hr. injection Hr as <-. vm_compute. lia. }
  split; [vm_compute; reflexivity |]. split; [vm_compute; reflexivity |].
  split; [exact Hslot |].
  pose proof (loadScene_success_state Demo.world "menu" Demo.with_main
                {| asset_path := "game.json"; data := ManifestData Demo.manifest |}
                [("main", "main.json"); ("menu", "menu.json")] "menu.json"
                [GameObjectNode "Title" []]
                ltac:(vm_compute; reflexivity) ltac:(vm_compute; reflexivity)
                ltac:(vm_compute; reflexivity) Hslot
                ltac:(vm_compute; reflexivity) ltac:(vm_compute; reflexivity)
                ltac:(vm_compute; reflexivity)) as H.
  cbv zeta in H.
  assert (L : length (scene_store Demo.with_main) = 1) by (vm_compute; reflexivity).
  rewrite L in H. destruct H as (H1 & H2 & H3 & _).
  repeat split; assumption.
Defined.

(** ** Scene objects out of the slot *)

(** The scene at [r] is [s] and is not the one in the slot. *)
Lemma load_new_scene_keeps_others w name st r s :
  scene_store st !! r = Some s -> scene (session st) <> Some r ->
  scene_store (snd (load_new_scene w name st)) !! r = Some s /\
  scene (session (snd (load_new_scene w name st))) <> Some r.
Proof.
  intros Hs Hr.
  assert (Hlt : r < length (scene_store st)) by (eapply lookup_lt_Some; eassumption).
  destruct (load_new_scene_cases w name st) as [[e ->] | (sc & Hstore & Hslot & _)].
  - now split.
  - rewrite Hstore, Hslot. split.
    + rewrite lookup_app_l by assumption. exact Hs.
    + intros H. injection H as H. lia.
Qed.

Lemma transition_keeps_others w name st r s :
  scene_store st !! r = Some s -> scene (session st) <> Some r ->
  scene_store (snd (transition w name st)) !! r = Some s /\
  scene (session (snd (transition w name st))) <> Some r.
Proof.
  intros Hs Hr. unfold transition, bind. rewrite unload_if_active_run.
  destruct (scene (session st)) as [r0|] eqn:Hr0.
  - destruct (scene_store st !! r0) as [s0|] eqn:Hs0.
    + apply load_new_scene_keeps_others; cbn [session scene_store].
      * rewrite list_lookup_insert_ne by congruence. exact Hs.
      * discriminate.
    + cbn [snd session scene_store]. split; [exact Hs |]. now rewrite Hr0.
  - apply load_new_scene_keeps_others; [exact Hs | now rewrite Hr0].
Qed.

Lemma loadScene_keeps_others w (v : JSValue) st r s :
  scene_store st !! r = Some s -> scene (session st) <> Some r ->
  scene_store (snd (loadScene w v st)) !! r = Some s /\
  scene (session (snd (loadScene w v st))) <> Some r.
Proof.
  intros Hs Hr. destruct (loadingScene (session st)) eqn:Hflag.
  - rewrite loadScene_guard by assumption. now split.
  - destruct v as [| | b | n | name | h | id | member];
      try (rewrite loadScene_not_string by (assumption || discriminate);
           now split).
    rewrite loadScene_run by assumption.
    pose proof (ensure_initialized_quiet w (guarded st)) as [Hst Hsc _ _ _ _ _ _].
    destruct (ensure_initialized w (guarded st)) as [[[]|e] st1];
      cbn [snd guarded session scene_store] in Hst, Hsc |- *.
    + apply transition_keeps_others; [now rewrite Hst | now rewrite Hsc].
    + split; [now rewrite Hst | now rewrite Hsc].
Qed.

Lemma quiet_keeps_others st st' r s :
  quiet st st' ->
  scene_store st !! r = Some s -> scene (session st) <> Some r ->
  scene_store st' !! r = Some s /\ scene (session st') <> Some r.
Proof. intros [Hst Hsc _ _ _ _ _ _] Hs Hr. now rewrite Hst, Hsc. Qed.

Lemma run_call_keeps_others wc st r s :
  scene_store st !! r = Some s -> scene (session st) <> Some r ->
  scene_store (run_call wc st) !! r = Some s /\
  scene (session (run_call wc st)) <> Some r.
Proof.
  intros Hs Hr. destruct wc as [w [| types | v | p | |]]; cbn [run_call].
  - eapply quiet_keeps_others; [apply init_quiet | eassumption..].
  - cbn [scene_store session]. split; [exact Hs |].
    pose proof (registerGameObjectClasses_other_fields types (session st))
      as (_ & Hsc & _). now rewrite Hsc.
  - now apply loadScene_keeps_others.
  - eapply quiet_keeps_others; [apply loadAsset_quiet | eassumption..].
  - rewrite play_run.
    pose proof (quiet_keeps_others _ _ r s (ensure_initialized_quiet w st) Hs Hr)
      as K1.
    destruct (ensure_initialized w st) as [[[]|e] st1]; cbn [snd] in K1 |- *;
      [| exact K1].
    destruct K1 as [Hs1 Hr1].
    assert (K2 : scene_store (snd (start_initial_scene w st1)) !! r = Some s /\
                 scene (session (snd (start_initial_scene w st1))) <> Some r).
    { assert (Hstay : forall res,
                scene_store (snd (res, st1)) !! r = Some s /\
                scene (session (snd (@pair (Result unit) State res st1))) <> Some r)
        by (intros res; now split).
      unfold start_initial_scene, bind, get_game.
      destruct (scene (session st1)); [apply Hstay |].
      destruct (gameJSONAsset (session st1)) as [a|]; [| apply Hstay].
      destruct (initial_scene_choice (manifest_of (data a))) as [n|];
        [| apply Hstay].
      unfold await_.
      pose proof (loadScene_keeps_others w (VString n) st1 r s Hs1
                    (proj2 (Hstay (Ok tt)))) as K.
      destruct (loadScene w (VString n) st1) as [res st2]. exact K. }
    destruct (start_initial_scene w st1) as [[[]|e] st2]; cbn [snd] in K2 |- *;
      [| exact K2].
    eapply quiet_keeps_others; [apply start_render_loop_quiet | apply K2..].
  - eapply quiet_keeps_others; [apply pause_quiet | eassumption..].
Qed.

(** X13. A scene object that is not in the session's slot is never touched
    again: across any sequence of calls, in any worlds and whatever their
    outcomes, it keeps every field it had and never becomes the session's
    scene; each [loadScene] works on a scene object of its own. *)
Theorem scene_out_of_slot_is_kept
    (calls : list (World * Call)) (st : State) (r : nat) (s : Scene) :
  scene_store st !! r = Some s ->
  scene (session st) <> Some r ->
  scene_store (run_calls calls st) !! r = Some s /\
  scene (session (run_calls calls st)) <> Some r.
Proof.
  intros Hs Hr.
  apply (run_calls_invariant
           (fun st' => scene_store st' !! r = Some s /\
                       scene (session st') <> Some r)); [| now split].
  intros wc st' _ [Hs' Hr']. now apply run_call_keeps_others.
Qed.

Lemma scene_out_of_slot_is_kept_witness :
  scene_store Demo.with_menu !! 0
  = Some (detached (loaded_scene "main.json" Demo.box_tree)) /\
  scene (session Demo.with_menu) <> Some 0 /\
  scene_store
    (run_calls [(Demo.world, CallLoadScene (VString "main"));
                (Demo.broken_world, CallLoadScene (VString "main"));
                (Demo.world, CallPlay)]
               Demo.with_menu) !! 0
  = Some (detached (loaded_scene "main.json" Demo.box_tree)).
Proof.
  assert (Hs : scene_store Demo.with_menu !! 0
               = Some (detached (loaded_scene "main.json" Demo.box_tree)))
    by (vm_compute; reflexivity).
  assert (Hr : scene (session Demo.with_menu) <> Some 0)
    by (vm_compute; discriminate).
  split; [exact Hs |]. split; [exact Hr |].
  apply (scene_out_of_slot_is_kept _ _ _ _ Hs Hr).
Defined.

(** ** Well-formed states *)

Lemma well_formed_transport st st' :
  well_formed st ->
  initialized (session st') = initialized (session st) ->
  gameJSONAsset (session st') = gameJSONAsset (session st) ->
  (is_Some (renderer (session st)) -> is_Some (renderer (session st'))) ->
  assetStore (session st') = assetStore (session st) ->
  scene (session st') = scene (session st) ->
  length (scene_store st') = length (scene_store st) ->
  well_formed st'.
Proof.
  intros [Ha Hb] Hi Hj Hr Hs Hc Hl. split.
  - rewrite Hi, Hj, Hs. intros H. destruct (Ha H) as (? & ? & ?).
    repeat split; auto.
  - rewrite Hi, Hc, Hl. exact Hb.
Qed.

Lemma well_formed_but_scene st st' :
  well_formed st ->
  same_but_scene (session st) (session st') ->
  (forall r, scene (session st') = Some r ->
     initialized (session st) = true /\ r < length (scene_store st')) ->
  well_formed st'.
Proof.
  intros [Ha _] Hs Hb.
  apply same_but_scene_fields in Hs
    as (_ & Hi & _ & _ & Hj & Hr & Hst & _).
  split.
  - rewrite Hi, Hj, Hr, Hst. exact Ha.
  - rewrite Hi. exact Hb.
Qed.

Lemma well_formed_quiet_ready st st' :
  well_formed st -> quiet st st' ->
  initialized (session st') = initialized (session st) ->
  gameJSONAsset (session st') = gameJSONAsset (session st) ->
  (is_Some (renderer (session st)) -> is_Some (renderer (session st'))) ->
  assetStore (session st') = assetStore (session st) ->
  well_formed st'.
Proof.
  intros Hw [Hst Hsc _ _ _ _ _ _] Hi Hj Hr Hs.
  eapply well_formed_transport; try eassumption. now rewrite Hst.
Qed.

Section WellFormed.
Variable w : World.

Lemma init_well_formed st : well_formed st -> well_formed (snd (_init w st)).
Proof.
  intros Hw. destruct (initialized (session st)) eqn:Hi.
  - unfold _init, bind, get_game. now rewrite Hi.
  - pose proof (init_quiet w st) as [Hst Hsc _ _ _ _ _ _].
    pose proof (init_outcome w st Hi) as O.
    assert (Hnone : scene (session st) = None).
    { destruct (scene (session st)) as [r|] eqn:E; [| reflexivity].
      destruct (proj2 Hw r E) as [Hi' _]. congruence. }
    split.
    + intros Hi'. destruct (fst (_init w st)) as [[]|e]; [| congruence].
      destruct O as (_ & (a & _ & Ha) & Hr & Hs).
      split; [rewrite Ha; eexists; reflexivity |].
      split; [exact Hr | rewrite Hs; eexists; reflexivity].
    + intros r Hr. rewrite Hsc, Hnone in Hr. discriminate.
Qed.

Lemma suspended_well_formed st : well_formed st -> well_formed (suspended st).
Proof. intros H. exact H. Qed.

Lemma ensure_initialized_well_formed st :
  well_formed st ->
  well_formed (snd (ensure_initialized w st)) /\
  (is_ok (fst (ensure_initialized w st)) = true ->
   initialized (session (snd (ensure_initialized w st))) = true).
Proof.
  intros Hw. destruct (initialized (session st)) eqn:Hi.
  - rewrite ensure_initialized_ready by assumption. now split.
  - rewrite ensure_initialized_fresh by assumption. cbn [fst snd].
    split; [apply suspended_well_formed, init_well_formed, Hw |].
    pose proof (init_outcome w st Hi) as O.
    destruct (fst (_init w st)) as [[]|e]; [intros _; apply O | discriminate].
Qed.

Lemma transition_well_formed name st :
  well_formed st -> initialized (session st) = true ->
  well_formed (snd (transition w name st)).
Proof.
  intros Hw Hi. unfold transition, bind. rewrite unload_if_active_run.
  assert (Hnew : forall st2,
            well_formed st2 -> initialized (session st2) = true ->
            well_formed (snd (load_new_scene w name st2))).
  { intros st2 Hw2 Hi2.
    destruct (load_new_scene_cases w name st2)
      as [[e ->] | (sc & Hstore & Hslot & Hsame)]; [exact Hw2 |].
    apply (well_formed_but_scene st2); [exact Hw2 | exact Hsame |].
    intros r Hr. rewrite Hslot in Hr. injection Hr as <-.
    split; [exact Hi2 |]. rewrite Hstore, length_app. simpl. lia. }
  destruct (scene (session st)) as [r0|] eqn:Hr0.
  - destruct (scene_store st !! r0) as [s0|] eqn:Hs0.
    + apply Hnew; [| exact Hi].
      apply (well_formed_but_scene st);
        [exact Hw | apply same_but_scene_set_scene | discriminate].
    + destruct (proj2 Hw r0 Hr0) as [_ Hlt].
      apply lookup_ge_None in Hs0. lia.
  - now apply Hnew.
Qed.

Lemma guarded_well_formed st : well_formed st -> well_formed (guarded st).
Proof.
  intros Hw. apply (well_formed_transport st); try reflexivity; auto.
Qed.

Lemma loadScene_well_formed (v : JSValue) st :
  well_formed st -> well_formed (snd (loadScene w v st)).
Proof.
  intros Hw. destruct (loadingScene (session st)) eqn:Hflag.
  - rewrite loadScene_guard by assumption. exact Hw.
  - destruct v as [| | b | n | name | h | id | member];
      try (rewrite loadScene_not_string by (assumption || discriminate);
           now apply guarded_well_formed).
    rewrite loadScene_run by assumption.
    destruct (ensure_initialized_well_formed (guarded st)
                (guarded_well_formed st Hw)) as [Hw1 Hi1].
    destruct (ensure_initialized w (guarded st)) as [[[]|e] st1];
      cbn [fst snd] in Hw1, Hi1 |- *; [| exact Hw1].
    apply transition_well_formed; [exact Hw1 | now apply Hi1].
Qed.

Lemma loadAsset_well_formed path st :
  well_formed st -> well_formed (snd (loadAsset w path st)).
Proof.
  intros Hw. unfold loadAsset, bind.
  destruct (ensure_initialized_well_formed st Hw) as [Hw1 _].
  destruct (ensure_initialized w st) as [[[]|e] st1]; cbn [snd] in Hw1 |- *;
    [| exact Hw1].
  destruct (load_via_store_session w path st1) as [Hs Hst].
  apply (well_formed_transport st1); try (now rewrite Hs); try (now rewrite Hst).
  exact Hw1.
Qed.

Lemma play_well_formed st : well_formed st -> well_formed (snd (play w st)).
Proof.
  intros Hw. rewrite play_run.
  destruct (ensure_initialized_well_formed st Hw) as [Hw1 _].
  destruct (ensure_initialized w st) as [[[]|e] st1]; cbn [snd] in Hw1 |- *;
    [| exact Hw1].
  assert (Hw2 : well_formed (snd (start_initial_scene w st1))).
  { unfold start_initial_scene, bind, get_game.
    destruct (scene (session st1)); [exact Hw1 |].
    destruct (gameJSONAsset (session st1)) as [a|]; [| exact Hw1].
    destruct (initial_scene_choice (manifest_of (data a))) as [n|]; [| exact Hw1].
    unfold await_.
    pose proof (loadScene_well_formed (VString n) st1 Hw1) as K.
    destruct (loadScene w (VString n) st1) as [res st2]. exact K. }
  destruct (start_initial_scene w st1) as [[[]|e] st2]; cbn [snd] in Hw2 |- *;
    [| exact Hw2].
  rewrite start_render_loop_run.
  destruct (renderer (session st2)) as [r|] eqn:Hr; [| exact Hw2].
  apply (well_formed_transport st2); try reflexivity; [exact Hw2 |].
  intros _. eexists. reflexivity.
Qed.

Lemma pause_well_formed st : well_formed st -> well_formed (snd (pause st)).
Proof.
  intros Hw. unfold pause, bind, get_game.
  destruct (renderer (session st)) as [r|] eqn:Hr; [| exact Hw].
  apply (well_formed_transport st); try reflexivity; [exact Hw |].
  intros _. eexists. reflexivity.
Qed.

End WellFormed.

Lemma run_call_well_formed wc st : well_formed st -> well_formed (run_call wc st).
Proof.
  intros Hw. destruct wc as [w [| types | v | p | |]]; cbn [run_call].
  - now apply init_well_formed.
  - pose proof (registerGameObjectClasses_other_fields types (session st))
      as (Hi & Hsc & _ & _ & Hj & Hr & _ & _ & Hs).
    apply (well_formed_transport st); try assumption; try reflexivity.
    cbn [session]. now rewrite Hr.
  - now apply loadScene_well_formed.
  - now apply loadAsset_well_formed.
  - now apply play_well_formed.
  - now apply pause_well_formed.
Qed.

(** X14. Every state a session can reach from its constructor is
    well-formed: whenever [initialized] is set, the manifest, the renderer
    and the asset store are in place, and whenever the slot holds a scene,
    the session is initialized and the scene is an object of the scene
    store. *)
Theorem reachable_states_well_formed
    (arg : JSValue) (options : option GameOptions) (g : Game)
    (calls : list (World * Call)) :
  Game_constructor arg options = Ok g ->
  well_formed (run_calls calls (launched g)).
Proof.
  intros Hg. apply run_calls_invariant.
  - intros wc st _. apply run_call_well_formed.
  - destruct arg; simpl in Hg; try discriminate; injection Hg as <-;
      (split; [intros H; discriminate H | intros r H; discriminate H]).
Qed.

Lemma reachable_states_well_formed_witness :
  Game_constructor (VString "http://host/game/") None = Ok Demo.fresh_game /\
  well_formed
    (run_calls [(Demo.offline_world, CallPlay);
                (Demo.broken_world, CallLoadScene (VString "main"));
                (Demo.world, CallLoadAsset "box.json")]
               (launched Demo.fresh_game)).
Proof.
  split; [vm_compute; reflexivity |].
  apply (reachable_states_well_formed (VString "http://host/game/") None).
  vm_compute; reflexivity.
Defined.

(** ** TypeErrors *)

Lemma first_failure_polite w store l e :
  polite w -> first_failure w store l = Some e ->
  type_error_of (@Throw unit e) = None.
Proof.
  intros [Hp _]. induction l as [|[k v] l IH]; simpl; [discriminate |].
  specialize (Hp store v).
  destruct (asset_result w store v) as [d|e0]; [exact IH |].
  intros H. injection H as <-. exact Hp.
Qed.

Section NoTypeError.
Variable w : World.
Hypothesis Hpolite : polite w.

Lemma init_no_type_error st : type_error_of (fst (_init w st)) = None.
Proof.
  destruct (initialized (session st)) eqn:Hi.
  - unfold _init, bind, get_game. now rewrite Hi.
  - rewrite init_result by assumption. unfold init_verdict.
    pose proof (proj1 Hpolite (store_of (session st)) "game.json") as Hm.
    destruct (asset_result w (store_of (session st)) "game.json") as [a|e];
      [| exact Hm].
    destruct (first_failure w (store_of (session st)) _) as [e|] eqn:E.
    + now apply (first_failure_polite w _ _ e Hpolite E).
    + destruct (renderer_ok w); [destruct (input_ok w) |]; reflexivity.
Qed.

Lemma ensure_initialized_no_type_error st :
  type_error_of (fst (ensure_initialized w st)) = None.
Proof.
  destruct (initialized (session st)) eqn:Hi.
  - now rewrite ensure_initialized_ready.
  - rewrite ensure_initialized_fresh by assumption. apply init_no_type_error.
Qed.

Lemma loadAsset_no_type_error path st :
  well_formed st -> type_error_of (fst (loadAsset w path st)) = None.
Proof.
  intros Hw. unfold loadAsset, bind.
  pose proof (ensure_initialized_no_type_error st) as He.
  destruct (ensure_initialized_well_formed w st Hw) as [Hw1 Hi1].
  destruct (ensure_initialized w st) as [[[]|e] st1]; cbn [fst snd] in *;
    [| exact He].
  destruct (proj1 Hw1 (Hi1 eq_refl)) as (_ & _ & [store Hs]).
  rewrite (load_via_store_run w st1 path store Hs). apply Hpolite.
Qed.

Lemma scene_verdict_type_error m name what :
  type_error_of (scene_verdict w m name) = Some what ->
  what = "scenes" /\ scenes m = None.
Proof.
  unfold scene_verdict. destruct (scenes m) as [declared|].
  - destruct (truthy (prop_get name declared)); [| discriminate].
    assert (Hp : type_error_of (build_result w (prop_get name declared)) = None).
    { unfold build_result.
      destruct (prop_get name declared); try apply Hpolite. }
    destruct (build_result w (prop_get name declared)) as [objs|e];
      [discriminate |].
    intros H. destruct e; simpl in Hp, H; congruence.
  - intros H. injection H as <-. now split.
Qed.

Lemma well_formed_slot st : well_formed st -> slot_in_store st.
Proof. intros [_ Hb] r Hr. now apply Hb. Qed.

Lemma transition_result name st a :
  gameJSONAsset (session st) = Some a ->
  slot_in_store st ->
  fst (transition w name st) = scene_verdict w (manifest_of (data a)) name.
Proof.
  intros Ha Hslot. unfold transition, bind. rewrite unload_if_active_run.
  destruct (scene (session st)) as [r|] eqn:Hr.
  - destruct (slot_in_store_lookup st r Hslot Hr) as [s Hs]. rewrite Hs.
    now apply load_new_scene_verdict.
  - now apply load_new_scene_verdict.
Qed.

Lemma loadScene_type_error (v : JSValue) st what :
  well_formed st ->
  type_error_of (fst (loadScene w v st)) = Some what ->
  what = "scenes" /\
  exists a, gameJSONAsset (session (snd (loadScene w v st))) = Some a /\
            scenes (manifest_of (data a)) = None.
Proof.
  intros Hw. destruct (loadingScene (session st)) eqn:Hflag.
  - rewrite loadScene_guard by assumption. discriminate.
  - destruct v as [| | b | n | name | h | id | member];
      try (rewrite loadScene_not_string by (assumption || discriminate);
           discriminate).
    rewrite loadScene_run by assumption.
    pose proof (ensure_initialized_no_type_error (guarded st)) as He.
    destruct (ensure_initialized_well_formed w (guarded st)
                (guarded_well_formed st Hw)) as [Hw1 Hi1].
    pose proof (ensure_initialized_quiet w (guarded st)) as [_ _ Hf1 _ _ _ _ _].
    destruct (ensure_initialized w (guarded st)) as [[[]|e] st1];
      cbn [fst snd] in He, Hw1, Hi1, Hf1 |- *.
    + specialize (Hi1 eq_refl).
      destruct (proj1 Hw1 Hi1) as ([a Ha] & _).
      rewrite (transition_result name st1 a Ha (well_formed_slot st1 Hw1)).
      intros Hte. apply scene_verdict_type_error in Hte as [-> Hnone].
      split; [reflexivity |]. exists a. split; [| exact Hnone].
      pose proof (transition_outcome w name st1 Hf1) as (Hs & _).
      apply same_but_scene_fields in Hs as (_ & _ & _ & _ & Hj & _).
      now rewrite Hj.
    + intros Hte. rewrite He in Hte. discriminate.
Qed.

Lemma play_no_type_error st :
  well_formed st -> type_error_of (fst (play w st)) = None.
Proof.
  intros Hw. rewrite play_run.
  pose proof (ensure_initialized_no_type_error st) as He.
  destruct (ensure_initialized_well_formed w st Hw) as [Hw1 Hi1].
  destruct (ensure_initialized w st) as [[[]|e] st1]; cbn [fst snd] in *;
    [| exact He].
  specialize (Hi1 eq_refl).
  pose proof (start_initial_scene_same_manifest w st1 Hi1) as (Hi2 & _).
  assert (Hw2 : well_formed (snd (start_initial_scene w st1)) /\
                type_error_of (fst (start_initial_scene w st1)) = None).
  { unfold start_initial_scene, bind, get_game.
    destruct (scene (session st1)); [now split |].
    destruct (proj1 Hw1 Hi1) as ([a Ha] & _). rewrite Ha.
    destruct (initial_scene_choice (manifest_of (data a))) as [n|] eqn:Ec;
      [| now split].
    unfold await_.
    pose proof (loadScene_well_formed w (VString n) st1 Hw1) as K.
    pose proof (loadScene_type_error (VString n) st1) as T.
    pose proof (loadScene_ready_frame w (VString n) st1 Hi1) as F.
    destruct (loadScene w (VString n) st1) as [res st2]. cbn [fst snd] in *.
    split; [exact K |].
    destruct (type_error_of res) as [what|] eqn:E; [| reflexivity].
    destruct (T what Hw1 eq_refl) as (_ & a' & Ha' & Hnone).
    apply same_but_scene_fields in F as (_ & _ & _ & _ & Hj & _).
    rewrite Hj, Ha in Ha'. injection Ha' as <-.
    unfold initial_scene_choice in Ec. rewrite Hnone in Ec. discriminate Ec. }
  destruct Hw2 as [Hw2 Ht2].
  destruct (start_initial_scene w st1) as [[[]|e] st2]; cbn [fst snd] in *;
    [| exact Ht2].
  rewrite start_render_loop_run.
  rewrite Hi1 in Hi2.
  destruct (proj1 Hw2 Hi2) as (_ & [r Hr] & _). now rewrite Hr.
Qed.

End NoTypeError.

(** X15. In a well-formed state, and so in every state a session reaches
    from its constructor, with collaborators that do not themselves reject
    with a TypeError: [_init], [loadAsset] and [play] never end with a
    TypeError, and [loadScene] ends with one only when the manifest has no
    [scenes] object, the error then coming from reading [scenes[name]]. *)
Theorem type_errors_only_from_missing_scenes (w : World) (st : State) :
  well_formed st ->
  polite w ->
  type_error_of (fst (_init w st)) = None /\
  (forall path, type_error_of (fst (loadAsset w path st)) = None) /\
  type_error_of (fst (play w st)) = None /\
  (forall (v : JSValue) what,
     type_error_of (fst (loadScene w v st)) = Some what ->
     what = "scenes" /\
     exists a, gameJSONAsset (session (snd (loadScene w v st))) = Some a /\
               scenes (manifest_of (data a)) = None).
Proof.
  intros Hw Hp.
  split; [now apply init_no_type_error |].
  split; [intros path; now apply loadAsset_no_type_error |].
  split; [now apply play_no_type_error |].
  intros v what. now apply loadScene_type_error.
Qed.

Lemma type_errors_only_from_missing_scenes_witness :
  well_formed Demo.with_main /\
  polite Demo.world /\
  type_error_of (fst (play Demo.world Demo.with_main)) = None.
Proof.
  assert (Hw : well_formed Demo.with_main).
  { split.
    - intros _. vm_compute. repeat split; eexists; reflexivity.
    - intros r Hr. vm_compute in Hr. injection Hr as <-.
      split; [vm_compute; reflexivity | vm_compute; lia]. }
  assert (Hp : polite Demo.world).
  { split; [| split].
    - intros store path. unfold Demo.world, asset_result.
      destruct (String.eqb path "game.json"); [reflexivity |].
      destruct (String.eqb path "box.json" || String.eqb path "ball.json");
        reflexivity.
    - intros path. unfold Demo.world, scene_result.
      destruct (String.eqb path "main.json"); [reflexivity |].
      destruct (String.eqb path "menu.json"); reflexivity.
    - intros v. reflexivity. }
  split; [exact Hw |]. split; [exact Hp |].
  exact (proj1 (proj2 (proj2
           (type_errors_only_from_missing_scenes Demo.world Demo.with_main Hw Hp)))).
Defined.

(** ** play at its edges *)



(** X17. [play()] is subject to the single-flight guard: on a ready
    session with an empty slot and a manifest that declares scenes, a call
    made while the guard flag is up fails with ConcurrentLoadError and
    changes nothing; the render loop is not started. *)
Theorem play_during_load
    (w : World) (st : State) (a : JSONAsset) :
  initialized (session st) = true ->
  loadingScene (session st) = true ->
  scene (session st) = None ->
  gameJSONAsset (session st) = Some a ->
  default [] (scenes (manifest_of (data a))) <> [] ->
  play w st = (Throw ConcurrentLoadError, suspended st).
Proof.
  intros Hi Hflag Hslot Ha Hne.
  rewrite play_run, ensure_initialized_ready by assumption.
  unfold start_initial_scene, bind, get_game. rewrite Hslot, Ha.
  unfold initial_scene_choice, object_keys.
  destruct (own_property_order (default [] (scenes (manifest_of (data a)))))
    as [|[k v] rest] eqn:E.
  - apply (proj1 (own_property_order_nil _)) in E. congruence.
  - cbn [map fst]. unfold await_. now rewrite loadScene_guard.
Qed.


Lemma play_during_load_witness :
  initialized (session (guarded Demo.ready)) = true /\
  loadingScene (session (guarded Demo.ready)) = true /\
  scene (session (guarded Demo.ready)) = None /\
  fst (play Demo.world (guarded Demo.ready)) = Throw ConcurrentLoadError.
Proof.
  split; [vm_compute; reflexivity |]. split; [reflexivity |].
  split; [vm_compute; reflexivity |].
  rewrite (play_during_load Demo.world (guarded Demo.ready)
             {| asset_path := "game.json"; data := ManifestData Demo.manifest |}
             ltac:(vm_compute; reflexivity) eq_refl
             ltac:(vm_compute; reflexivity) ltac:(vm_compute; reflexivity)
             ltac:(discriminate)).
  reflexivity.
Defined.

(** ** The old scene when the new one fails *)

(** X18. On an initialized session, once [loadScene] has found the path
    of the requested scene, the unloading of the scene that was active is
    final whatever becomes of the new scene's load: the old scene object
    is detached and inactive, its other fields as they were, and the slot
    holds the new scene object, loaded or not. *)
Theorem loadScene_unload_is_committed
    (w : World) (name : string) (st : State) (r0 : nat) (s0 : Scene)
    (a : JSONAsset) (declared : list (string * string)) (path : string) :
  loadingScene (session st) = false ->
  initialized (session st) = true ->
  scene (session st) = Some r0 ->
  scene_store st !! r0 = Some s0 ->
  gameJSONAsset (session st) = Some a ->
  scenes (manifest_of (data a)) = Some declared ->
  truthy_string (prop_lookup name declared) = Some path ->
  let st' := snd (loadScene w (VString name) st) in
  scene_store st' !! r0 = Some (detached s0) /\
  scene (session st') = Some (length (scene_store st)) /\
  r0 <> length (scene_store st) /\
  scene_store st' !! length (scene_store st)
  = Some match scene_result w path with
         | Ok objs => loaded_scene path objs
         | Throw _ => new_scene path
         end.
Proof.
  intros Hflag Hi Hslot Hs0 Ha Hd Hp st'. subst st'.
  assert (Hlt : r0 < length (scene_store st)) by (eapply lookup_lt_Some; eassumption).
  rewrite loadScene_ready_run by assumption.
  unfold transition, bind. rewrite unload_if_active_run.
  change (scene (session (guarded st))) with (scene (session st)).
  change (scene_store (guarded st)) with (scene_store st).
  rewrite Hslot, Hs0.
  set (st1 := {| session := _; scene_store := <[r0:=detached s0]> (scene_store st);
                 trace := _ |}).
  assert (Hlen : length (scene_store st1) = length (scene_store st))
    by apply length_insert.
  assert (Hold : scene_store st1 !! r0 = Some (detached s0))
    by now apply list_lookup_insert_eq.
  rewrite (load_new_scene_run w st1 name a declared path Ha Hd Hp).
  rewrite Hlen.
  destruct (scene_result w path) as [objs|e];
    cbn [snd session scene_store scene set_scene set_loadingScene].
  - split; [rewrite lookup_app_l by (rewrite Hlen; exact Hlt); exact Hold |].
    split; [reflexivity |]. split; [lia |].
    apply list_lookup_middle. now rewrite Hlen.
  - split; [rewrite lookup_app_l by (rewrite Hlen; exact Hlt); exact Hold |].
    split; [reflexivity |]. split; [lia |].
    apply list_lookup_middle. now rewrite Hlen.
Qed.

Lemma loadScene_unload_is_committed_witness :
  loadingScene (session Demo.with_main) = false /\
  initialized (session Demo.with_main) = true /\
  scene (session Demo.with_main) = Some 0 /\
  fst (loadScene Demo.broken_world (VString "main") Demo.with_main)
  = Throw (SceneLoadError "main.json") /\
  scene_store (snd (loadScene Demo.broken_world (VString "main") Demo.with_main)) !! 0
  = Some (detached (loaded_scene "main.json" Demo.box_tree)) /\
  scene (session (snd (loadScene Demo.broken_world (VString "main") Demo.with_main)))
  = Some 1.
Proof.
  split; [vm_compute; reflexivity |]. split; [vm_compute; reflexivity |].
  split; [vm_compute; reflexivity |]. split; [vm_compute; reflexivity |].
  pose proof (loadScene_unload_is_committed
                Demo.broken_world "main" Demo.with_main 0
                (loaded_scene "main.json" Demo.box_tree)
                {| asset_path := "game.json"; data := ManifestData Demo.manifest |}
                [("main", "main.json"); ("menu", "menu.json")] "main.json"
                ltac:(vm_compute; reflexivity) ltac:(vm_compute; reflexivity)
                ltac:(vm_compute; reflexivity) ltac:(vm_compute; reflexivity)
                ltac:(vm_compute; reflexivity) ltac:(vm_compute; reflexivity)
                ltac:(vm_compute; reflexivity)) as H.
  cbv zeta in H.
  assert (L : length (scene_store Demo.with_main) = 1) by (vm_compute; reflexivity).
  rewrite L in H. destruct H as (H1 & H2 & _).
  split; assumption.
Defined.
